(** * The duplicate-message filter of the support bot (bot/filters.py)

    A shallow embedding of [DuplicateMessageFilter] and the properties of
    its specification.

    Conventions of the embedding:
    - a Python [str] is a list of Unicode code points ([str]); string
      literals of this file are UTF-8 byte strings and are decoded by [u];
    - [time.time()] is an argument of [is_duplicate] (the clock reading
      [current_time]); clock readings, the Jaccard score and the threshold
      are exact rationals ([Q]), so the rounding of binary floating point
      is abstracted away;
    - the tables of the Unicode database behind [str.lower] and [\w] are
      the class [Ucd]; the general theorems hold for any tables, the
      evaluations use the rows for Basic Latin and Cyrillic;
    - [user_messages] (a [defaultdict] of bounded deques) is a [gmap] from
      the actor id to the deque's content, oldest entry first;
      [message_hashes] is a [gset];
    - a Python exception is a value of [outcome]. *)

From Stdlib Require Import Ascii String.
From Stdlib Require Import ZArith QArith Lqa List.
From stdpp Require Import base gmap list fin_maps fin_sets.

Local Open Scope Z_scope.

(** ** Python strings *)

(** A [str]: the sequence of its code points. *)
Abbreviation str := (list Z).

Module Utf8.

Definition bytes_of_string (s : string) : list Z :=
  map (fun c => Z.of_N (N_of_ascii c)) (list_ascii_of_string s).

Definition cont (b : Z) : Z := Z.land b 0x3F.

(** Decoder for the literals of this file (well-formed UTF-8). *)
Fixpoint decode (bs : list Z) : str :=
  match bs with
  | [] => []
  | b0 :: r0 =>
    if b0 <? 0x80 then b0 :: decode r0
    else match r0 with
    | [] => []
    | b1 :: r1 =>
      if b0 <? 0xE0 then
        Z.lor (Z.shiftl (Z.land b0 0x1F) 6) (cont b1) :: decode r1
      else match r1 with
      | [] => []
      | b2 :: r2 =>
        if b0 <? 0xF0 then
          Z.lor (Z.shiftl (Z.land b0 0x0F) 12)
                (Z.lor (Z.shiftl (cont b1) 6) (cont b2)) :: decode r2
        else match r2 with
        | [] => []
        | b3 :: r3 =>
          Z.lor (Z.shiftl (Z.land b0 0x07) 18)
                (Z.lor (Z.shiftl (cont b1) 12)
                       (Z.lor (Z.shiftl (cont b2) 6) (cont b3))) :: decode r3
        end
      end
    end
  end.

Definition tail_byte (c : Z) (shift : Z) : Z :=
  Z.lor 0x80 (Z.land (Z.shiftr c shift) 0x3F).

(** [s.encode('utf-8')], one code point. *)
Definition encode_cp (c : Z) : list Z :=
  if c <? 0x80 then [c]
  else if c <? 0x800 then [Z.lor 0xC0 (Z.shiftr c 6); tail_byte c 0]
  else if c <? 0x10000 then
    [Z.lor 0xE0 (Z.shiftr c 12); tail_byte c 6; tail_byte c 0]
  else
    [Z.lor 0xF0 (Z.shiftr c 18); tail_byte c 12; tail_byte c 6; tail_byte c 0].

Definition encode (s : str) : list Z := concat (map encode_cp s).

End Utf8.

(** The [str] written by a literal of this file. *)
Definition u (s : string) : str := Utf8.decode (Utf8.bytes_of_string s).

(** ** hashlib.md5 (RFC 1321) *)

Module MD5.

Definition mask32 : Z := 0xFFFFFFFF.
Definition w32 (x : Z) : Z := Z.land x mask32.
Definition add32 (x y : Z) : Z := w32 (x + y).
Definition not32 (x : Z) : Z := Z.lxor x mask32.
Definition rotl32 (x c : Z) : Z :=
  w32 (Z.lor (Z.shiftl x c) (Z.shiftr x (32 - c))).

Definition shifts : list Z :=
  [7; 12; 17; 22; 7; 12; 17; 22; 7; 12; 17; 22; 7; 12; 17; 22;
   5;  9; 14; 20; 5;  9; 14; 20; 5;  9; 14; 20; 5;  9; 14; 20;
   4; 11; 16; 23; 4; 11; 16; 23; 4; 11; 16; 23; 4; 11; 16; 23;
   6; 10; 15; 21; 6; 10; 15; 21; 6; 10; 15; 21; 6; 10; 15; 21].

(** floor(2^32 * |sin(i + 1)|) *)
Definition sines : list Z :=
  [0xd76aa478; 0xe8c7b756; 0x242070db; 0xc1bdceee;
   0xf57c0faf; 0x4787c62a; 0xa8304613; 0xfd469501;
   0x698098d8; 0x8b44f7af; 0xffff5bb1; 0x895cd7be;
   0x6b901122; 0xfd987193; 0xa679438e; 0x49b40821;
   0xf61e2562; 0xc040b340; 0x265e5a51; 0xe9b6c7aa;
   0xd62f105d; 0x02441453; 0xd8a1e681; 0xe7d3fbc8;
   0x21e1cde6; 0xc33707d6; 0xf4d50d87; 0x455a14ed;
   0xa9e3e905; 0xfcefa3f8; 0x676f02d9; 0x8d2a4c8a;
   0xfffa3942; 0x8771f681; 0x6d9d6122; 0xfde5380c;
   0xa4beea44; 0x4bdecfa9; 0xf6bb4b60; 0xbebfbc70;
   0x289b7ec6; 0xeaa127fa; 0xd4ef3085; 0x04881d05;
   0xd9d4d039; 0xe6db99e5; 0x1fa27cf8; 0xc4ac5665;
   0xf4292244; 0x432aff97; 0xab9423a7; 0xfc93a039;
   0x655b59c3; 0x8f0ccc92; 0xffeff47d; 0x85845dd1;
   0x6fa87e4f; 0xfe2ce6e0; 0xa3014314; 0x4e0811a1;
   0xf7537e82; 0xbd3af235; 0x2ad7d2bb; 0xeb86d391].

Record regs := Regs { rA : Z; rB : Z; rC : Z; rD : Z }.

Definition init : regs :=
  Regs 0x67452301 0xefcdab89 0x98badcfe 0x10325476.

(** One of the 64 operations on the block [m] (16 words). *)
Definition operation (m : list Z) (r : regs) (i : nat) : regs :=
  let '(Regs a b c d) := r in
  let zi := Z.of_nat i in
  let '(f, g) :=
    if zi <? 16 then (Z.lor (Z.land b c) (Z.land (not32 b) d), zi)
    else if zi <? 32 then
      (Z.lor (Z.land d b) (Z.land (not32 d) c), (5 * zi + 1) mod 16)
    else if zi <? 48 then (Z.lxor b (Z.lxor c d), (3 * zi + 5) mod 16)
    else (Z.lxor c (Z.lor b (not32 d)), (7 * zi) mod 16) in
  let f' := add32 (add32 (add32 f a) (nth i sines 0)) (nth (Z.to_nat g) m 0) in
  Regs d (add32 b (rotl32 f' (nth i shifts 0))) b c.

Definition le32 (b0 b1 b2 b3 : Z) : Z :=
  Z.lor b0 (Z.lor (Z.shiftl b1 8) (Z.lor (Z.shiftl b2 16) (Z.shiftl b3 24))).

(** The little-endian words of a byte sequence. *)
Fixpoint words (bs : list Z) : list Z :=
  match bs with
  | b0 :: b1 :: b2 :: b3 :: r => le32 b0 b1 b2 b3 :: words r
  | _ => []
  end.

Definition block (r : regs) (m : list Z) : regs :=
  let r' := fold_left (operation m) (seq 0 64) r in
  Regs (add32 (rA r) (rA r')) (add32 (rB r) (rB r'))
       (add32 (rC r) (rC r')) (add32 (rD r) (rD r')).

(** The blocks of [n] sixteen-word groups of [ws]. *)
Fixpoint blocks (n : nat) (ws : list Z) (r : regs) : regs :=
  match n with
  | O => r
  | S n' => blocks n' (skipn 16 ws) (block r (firstn 16 ws))
  end.

Definition le_bytes (n : nat) (x : Z) : list Z :=
  map (fun k => Z.land (Z.shiftr x (8 * Z.of_nat k)) 0xFF) (seq 0 n).

Definition pad (msg : list Z) : list Z :=
  let len := Z.of_nat (length msg) in
  msg ++ [0x80] ++ repeat 0 (Z.to_nat ((55 - len) mod 64))
      ++ le_bytes 8 ((8 * len) mod 2 ^ 64).

Definition digest (msg : list Z) : list Z :=
  let p := pad msg in
  let '(Regs a b c d) := blocks (length p / 64) (words p) init in
  le_bytes 4 a ++ le_bytes 4 b ++ le_bytes 4 c ++ le_bytes 4 d.

Definition hex_digit (n : Z) : Z :=
  if n <? 10 then 48 + n else 87 + n.

Definition hex_byte (b : Z) : str := [hex_digit (b / 16); hex_digit (b mod 16)].

(** [hashlib.md5(msg).hexdigest()] *)
Definition hexdigest (msg : list Z) : str := concat (map hex_byte (digest msg)).

End MD5.

(** ** The interpreter's character tables *)

(** [str.isspace], which is also the class [\s] of [re] and the separator
    of [str.split()] and [str.strip()]. *)
Definition isspace (c : Z) : bool :=
  ((0x09 <=? c) && (c <=? 0x0D)) || ((0x1C <=? c) && (c <=? 0x20))
  || (c =? 0x85) || (c =? 0xA0) || (c =? 0x1680)
  || ((0x2000 <=? c) && (c <=? 0x200A))
  || (c =? 0x2028) || (c =? 0x2029) || (c =? 0x202F) || (c =? 0x205F)
  || (c =? 0x3000).

(** The two tables of the Unicode database that the filter consults:
    [str.lower] (not a character-wise map in general) and [str.isalnum],
    from which [re] builds [\w]. *)
Class Ucd := {
  lower : str -> str;
  isalnum : Z -> bool
}.

(** The rows of both tables for Basic Latin and for U+0400..U+045F, the
    Cyrillic letters of the Russian alphabet and its neighbours. Other
    code points do not occur in the texts evaluated below. *)
Module Tables.

Definition lower_cp (c : Z) : Z :=
  if (0x41 <=? c) && (c <=? 0x5A) then c + 32
  else if (0x400 <=? c) && (c <=? 0x40F) then c + 80
  else if (0x410 <=? c) && (c <=? 0x42F) then c + 32
  else c.

Definition isalnum_cp (c : Z) : bool :=
  ((0x30 <=? c) && (c <=? 0x39)) || ((0x41 <=? c) && (c <=? 0x5A))
  || ((0x61 <=? c) && (c <=? 0x7A)) || ((0x400 <=? c) && (c <=? 0x45F)).

End Tables.

#[export] Instance ucd_latin_cyrillic : Ucd := {|
  lower := map Tables.lower_cp;
  isalnum := Tables.isalnum_cp
|}.

(** ** Python values and outcomes *)

(** The values a caller may pass where a [str] is expected. *)
Inductive pyval :=
| PyNone
| PyBool (b : bool)
| PyInt (z : Z)
| PyStr (s : str).

(** [bool(v)] *)
Definition truthy (v : pyval) : bool :=
  match v with
  | PyNone => false
  | PyBool b => b
  | PyInt z => negb (z =? 0)
  | PyStr s => match s with [] => false | _ => true end
  end.

(** The exceptions the filter can raise: [AttributeError] from a method
    call on a value that is not a [str], [ValueError] from [deque] for a
    negative [maxlen]. *)
Inductive exn := AttributeError | ValueError.

Inductive outcome (A : Type) :=
| Return (a : A)
| Raise (e : exn).
Arguments Return {A} a.
Arguments Raise {A} e.

(** ** String operations *)

Section Strings.
Context `{Ucd}.

(** The class [\w] of [re] on a [str] pattern. *)
Definition isword (c : Z) : bool := isalnum c || (c =? 0x5F).

Fixpoint lstrip (s : str) : str :=
  match s with
  | c :: r => if isspace c then lstrip r else s
  | [] => []
  end.

(** [s.strip()] *)
Definition strip (s : str) : str := rev (lstrip (rev (lstrip s))).

(** [s.split()]: the maximal runs of non-space characters; [word] is the
    run being read. *)
Fixpoint split_from (word s : str) : list str :=
  match s with
  | [] => match word with [] => [] | _ => [word] end
  | c :: r =>
    if isspace c then
      match word with
      | [] => split_from [] r
      | _ => word :: split_from [] r
      end
    else split_from (word ++ [c]) r
  end.

Definition split (s : str) : list str := split_from [] s.

(** [' '.join(ws)] *)
Fixpoint join (ws : list str) : str :=
  match ws with
  | [] => []
  | [w] => w
  | w :: r => w ++ 0x20 :: join r
  end.

(** [re.sub(r'[^\w\s]', '', s)] *)
Definition strip_punctuation (s : str) : str :=
  List.filter (fun c => isword c || isspace c) s.

(** [_normalize_text] on a [str]. *)
Definition normalize_str (text : str) : str :=
  match text with
  | [] => []
  | _ =>
    let normalized := strip (lower text) in
    let normalized := join (split normalized) in
    strip_punctuation normalized
  end.

(** [_normalize_text]: a falsy argument gives the empty string; any other
    argument that is not a [str] has no method [lower]. *)
Definition _normalize_text (text : pyval) : outcome str :=
  if negb (truthy text) then Return []
  else match text with
       | PyStr s => Return (normalize_str s)
       | _ => Raise AttributeError
       end.

(** [set(norm.split())] *)
Definition word_set (norm : str) : gset str := list_to_set (split norm).

(** [_calculate_similarity] *)
Definition _calculate_similarity (text1 text2 : str) : Q :=
  match text1, text2 with
  | [], _ | _, [] => 0%Q
  | _, _ =>
    let norm1 := normalize_str text1 in
    let norm2 := normalize_str text2 in
    if bool_decide (norm1 = norm2) then 1%Q
    else
      let words1 := word_set norm1 in
      let words2 := word_set norm2 in
      if bool_decide (words1 = ∅) || bool_decide (words2 = ∅) then 0%Q
      else
        let intersection := size (words1 ∩ words2) in
        let union := size (words1 ∪ words2) in
        if (0 <? union)%nat
        then (inject_Z (Z.of_nat intersection) / inject_Z (Z.of_nat union))%Q
        else 0%Q
  end.

End Strings.


(** ** The filter *)

(** An element of a user's deque: the tuple
    [(timestamp, message_hash, text)]. *)
Record entry := Entry {
  timestamp : Q;
  msg_hash : str;
  msg_text : str
}.

(** The attributes of a [DuplicateMessageFilter]. A negative
    [max_messages_per_user] is refused by [deque], hence [nat]. *)
Record filter := Filter {
  time_window : Q;
  max_messages_per_user : nat;
  similarity_threshold : Q;
  user_messages : gmap Z (list entry);
  message_hashes : gset str;
  blocked_count : nat;
  total_processed : nat
}.

Definition set_cache (f : filter) (um : gmap Z (list entry)) (mh : gset str) : filter :=
  Filter (time_window f) (max_messages_per_user f) (similarity_threshold f)
         um mh (blocked_count f) (total_processed f).

Definition incr_blocked (f : filter) : filter :=
  Filter (time_window f) (max_messages_per_user f) (similarity_threshold f)
         (user_messages f) (message_hashes f) (S (blocked_count f)) (total_processed f).

Definition incr_processed (f : filter) : filter :=
  Filter (time_window f) (max_messages_per_user f) (similarity_threshold f)
         (user_messages f) (message_hashes f) (blocked_count f) (S (total_processed f)).

(** [__init__] *)
Definition init (time_window : Q) (max_messages_per_user : nat)
    (similarity_threshold : Q) : filter :=
  Filter time_window max_messages_per_user similarity_threshold ∅ ∅ 0 0.

(** [x > y] on clock readings and scores. *)
Definition Qgt_bool (x y : Q) : bool := negb (Qle_bool x y).

(** [deque.append] on a deque of bound [maxlen]: the new element goes to
    the right end and, if the bound is exceeded, the leftmost one is
    dropped (nothing else happens to it). *)
Definition deque_append {A} (maxlen : nat) (d : list A) (x : A) : list A :=
  let d' := d ++ [x] in
  if (maxlen <? length d')%nat then tail d' else d'.

(** The loop of [_cleanup_old_messages] on the deque [d] and the set of
    hashes [mh]. *)
Fixpoint pop_old (window current_time : Q) (d : list entry) (mh : gset str)
    : list entry * gset str :=
  match d with
  | e :: d' =>
    if Qgt_bool (current_time - timestamp e) window
    then pop_old window current_time d' (mh ∖ {[msg_hash e]})
    else (d, mh)
  | [] => ([], mh)
  end.

(** [self.user_messages[user_id]] on the [defaultdict]: the deque of the
    user, an empty one being stored for a user without one. *)
Definition deque_of (um : gmap Z (list entry)) (user_id : Z) : list entry :=
  default [] (um !! user_id).

(** [_cleanup_old_messages] *)
Definition _cleanup_old_messages (f : filter) (user_id : Z) (current_time : Q) : filter :=
  let user_deque := deque_of (user_messages f) user_id in
  let '(user_deque, mh) :=
    pop_old (time_window f) current_time user_deque (message_hashes f) in
  set_cache f (<[user_id := user_deque]> (user_messages f)) mh.

Section Filter.
Context `{Ucd}.

(** [hashlib.md5(normalized_text.encode('utf-8')).hexdigest()] *)
Definition hash_of (normalized_text : str) : str :=
  MD5.hexdigest (Utf8.encode normalized_text).

(** The loop of [is_duplicate] over the user's deque. *)
Definition similar_to_some (f : filter) (message_text : str) (user_deque : list entry) : bool :=
  existsb (fun e =>
             Qle_bool (similarity_threshold f)
                      (_calculate_similarity message_text (msg_text e)))
          user_deque.

(** [is_duplicate] from the normalisation on (source lines 138-171), in
    the state [f] left by the clean-up. *)
Definition judge (f : filter) (user_id : Z) (current_time : Q)
    (message_text : pyval) : filter * outcome bool :=
  match _normalize_text message_text with
  | Raise e => (f, Raise e)
  | Return normalized_text =>
    match normalized_text, message_text with
    | _ :: _, PyStr text =>
      let message_hash := hash_of normalized_text in
      if bool_decide (message_hash ∈ message_hashes f) then
        (incr_blocked f, Return true)
      else
        let user_deque := deque_of (user_messages f) user_id in
        if similar_to_some f text user_deque then
          (incr_blocked f, Return true)
        else
          let user_deque :=
            deque_append (max_messages_per_user f) user_deque
                         (Entry current_time message_hash text) in
          (set_cache f (<[user_id := user_deque]> (user_messages f))
                       ({[message_hash]} ∪ message_hashes f),
           Return false)
    | _, _ => (f, Return false)
    end
  end.

(** [is_duplicate], [current_time] being the value of [time.time()]. *)
Definition is_duplicate (f : filter) (user_id : Z) (current_time : Q)
    (message_text : pyval) : filter * outcome bool :=
  let f := incr_processed f in
  let f := _cleanup_old_messages f user_id current_time in
  judge f user_id current_time message_text.

End Filter.

(** The counters returned by [get_stats]. *)
Record stats := Stats {
  stat_total_processed : nat;
  stat_blocked_count : nat;
  active_users : nat;
  cached_messages : nat
}.

(** [get_stats] *)
Definition get_stats (f : filter) : stats :=
  Stats (total_processed f) (blocked_count f)
        (size (user_messages f))
        (sum_list_with length (snd <$> map_to_list (user_messages f))).

(** [clear_user_cache] *)
Definition clear_user_cache (f : filter) (user_id : Z) : filter :=
  match user_messages f !! user_id with
  | Some user_deque =>
    set_cache f (<[user_id := []]> (user_messages f))
              (foldl (fun mh e => mh ∖ {[msg_hash e]}) (message_hashes f) user_deque)
  | None => f
  end.

(** [clear_all_cache] *)
Definition clear_all_cache (f : filter) : filter :=
  Filter (time_window f) (max_messages_per_user f) (similarity_threshold f) ∅ ∅ 0 0.

(** [l[start:]] *)
Definition slice_from {A} (start : Z) (l : list A) : list A :=
  let len := Z.of_nat (length l) in
  let start := if start <? 0 then Z.max (start + len) 0 else Z.min start len in
  drop (Z.to_nat start) l.

(** [get_user_recent_messages] *)
Definition get_user_recent_messages (f : filter) (user_id : Z) (limit : Z) : list entry :=
  match user_messages f !! user_id with
  | None => []
  | Some user_deque => slice_from (- limit) user_deque
  end.

(** ** Runs of the filter *)

(** The calls that change the state of a filter. *)
Inductive call :=
| IsDuplicate (user_id : Z) (current_time : Q) (message_text : pyval)
| ClearUserCache (user_id : Z)
| ClearAllCache.

Section Runs.
Context `{Ucd}.

Definition perform (f : filter) (c : call) : filter :=
  match c with
  | IsDuplicate user_id current_time message_text =>
    fst (is_duplicate f user_id current_time message_text)
  | ClearUserCache user_id => clear_user_cache f user_id
  | ClearAllCache => clear_all_cache f
  end.

Definition run (f : filter) (cs : list call) : filter := foldl perform f cs.

(** The states a filter built by [init] can be in. *)
Definition reachable (f : filter) : Prop :=
  exists w m t cs, f = run (init w m t) cs.

(** The answers of [is_duplicate] to the messages [ms] of one user, sent
    at the given times, and the final state. *)
Fixpoint send_all (f : filter) (user_id : Z) (ms : list (Q * str))
    : filter * list (outcome bool) :=
  match ms with
  | [] => (f, [])
  | (t, m) :: ms' =>
    let '(f, r) := is_duplicate f user_id t (PyStr m) in
    let '(f, rs) := send_all f user_id ms' in
    (f, r :: rs)
  end.

End Runs.

(** ** Predicates of the specification *)

(** The hash [h] is carried by a retained entry of some user. *)
Definition carried (um : gmap Z (list entry)) (h : str) : Prop :=
  exists user_id e, e ∈ deque_of um user_id /\ msg_hash e = h.

(** No two retained entries carry the same hash: not within one deque, and
    not across the deques of two users. *)
Definition hashes_distinct (um : gmap Z (list entry)) : Prop :=
  (forall u, NoDup (msg_hash <$> deque_of um u)) /\
  (forall u1 u2 e1 e2, u1 <> u2 -> e1 ∈ deque_of um u1 -> e2 ∈ deque_of um u2 ->
     msg_hash e1 <> msg_hash e2).

(** Every retained entry has its hash in the set of hashes. *)
Definition hashes_indexed (um : gmap Z (list entry)) (mh : gset str) : Prop :=
  forall u e, e ∈ deque_of um u -> msg_hash e ∈ mh.

Definition consistent_cache (um : gmap Z (list entry)) (mh : gset str) : Prop :=
  hashes_distinct um /\ hashes_indexed um mh.

Definition consistent (f : filter) : Prop :=
  consistent_cache (user_messages f) (message_hashes f).

(** [carried], read off the items of the dictionary. *)
Definition carried_in_items (um : gmap Z (list entry)) (h : str) : Prop :=
  Exists (fun kv => Exists (fun e => msg_hash e = h) kv.2) (map_to_list um).

(** The number of users whose deque holds at least one entry. *)
Definition nonempty_histories (f : filter) : nat :=
  size (base.filter (fun kv : Z * list entry => kv.2 <> []) (user_messages f)).

(** The users that called [is_duplicate] since the last [clear_all_cache]
    of a sequence of calls (or since its start). *)
Definition note_caller (users : gset Z) (c : call) : gset Z :=
  match c with
  | IsDuplicate user_id _ _ => {[user_id]} ∪ users
  | ClearUserCache _ => users
  | ClearAllCache => ∅
  end.

Definition callers (cs : list call) : gset Z := foldl note_caller ∅ cs.

#[local] Instance carried_in_items_dec um h : Decision (carried_in_items um h).
Proof. unfold carried_in_items. apply _. Defined.

(** The text made of the first [n] of the two-letter words "aa", "ab",
    ..., separated by single spaces. *)
Definition sample_words (n : nat) : str :=
  join ((fun i => [97 + Z.of_nat (i / 26); 97 + Z.of_nat (i mod 26)]) <$> seq 0 n).

(** ** The constructor and the public operations *)






Section Object.
Context `{Ucd}.





End Object.

(** ** Further predicates on the states of the filter *)

(** The call returned [True]. *)
Definition returned_true (r : outcome bool) : bool :=
  match r with
  | Return true => true
  | _ => false
  end.

(** The stored hash of an entry is the hash of the normal form of its
    text, and that normal form is not empty. *)
Definition entry_sound `{Ucd} (e : entry) : Prop :=
  normalize_str (msg_text e) <> [] /\
  msg_hash e = hash_of (normalize_str (msg_text e)).

(** The hash [h] is in the set of hashes and no retained entry carries
    it. *)
Definition orphaned (f : filter) (h : str) : Prop :=
  h ∈ message_hashes f /\ ~ carried (user_messages f) h.

(** The clock readings of the calls of [is_duplicate] never decrease, and
    start at [t0] or later. *)
Fixpoint clock_monotone (t0 : Q) (cs : list call) : Prop :=
  match cs with
  | [] => True
  | IsDuplicate _ t _ :: cs' => (t0 <= t)%Q /\ clock_monotone t cs'
  | _ :: cs' => clock_monotone t0 cs'
  end.

(** The last clock reading of a sequence of calls, [t0] if there is
    none. *)
Definition last_clock (t0 : Q) (cs : list call) : Q :=
  foldl (fun t c => match c with IsDuplicate _ t' _ => t' | _ => t end) t0 cs.

(** The entries of a deque carry clock readings that never decrease from
    the left to the right. *)
Fixpoint ascending (d : list entry) : Prop :=
  match d with
  | [] => True
  | e :: d' => Forall (fun e' => (timestamp e <= timestamp e')%Q) d' /\ ascending d'
  end.

(** Every deque is ascending and holds no clock reading later than
    [tl]. *)
Definition ordered (f : filter) (tl : Q) : Prop :=
  forall a, ascending (deque_of (user_messages f) a) /\
            Forall (fun e => (timestamp e <= tl)%Q) (deque_of (user_messages f) a).

(** ** The handler of private messages (main.py) *)

(** The module-level state the handler works on: the set
    [processing_users] and the filter [duplicate_filter] of the filter
    module. *)
Record bot := Bot {
  processing_users : gset Z;
  duplicate_filter : filter
}.

(** [processing_users = set()] and
    [DuplicateMessageFilter(time_window=300, max_messages_per_user=10,
    similarity_threshold=0.8)]. *)
Definition bot_start : bot := Bot ∅ (init 300 10 (4 # 5)).

(** Where an invocation of [handle_private_message] leaves the code before
    its [try] block, or that it enters the block. *)
Inductive verdict :=
| NoText
| BotDisabled
| UserBlocked
| AlreadyProcessing
| DuplicateMessage
| Failed (e : exn)
| Processing.

Section Handler.
Context `{Ucd}.

(** [is_duplicate_message] *)
Definition is_duplicate_message (s : bot) (user_id : Z) (now : Q)
    (message_text : pyval) : bot * outcome bool :=
  let '(f, r) := is_duplicate (duplicate_filter s) user_id now message_text in
  (Bot (processing_users s) f, r).

(** [clear_user_duplicates] *)
Definition clear_user_duplicates (s : bot) (user_id : Z) : bot :=
  Bot (processing_users s) (clear_user_cache (duplicate_filter s) user_id).

(** [handle_private_message] up to its [try] block. [global_enabled] and
    [user_blocked] are the answers of the state storage, [now] the clock
    reading of the filter. *)
Definition handle_private_message (s : bot) (text : pyval) (user_id : Z)
    (global_enabled user_blocked : bool) (now : Q) : bot * verdict :=
  if negb (truthy text) then (s, NoText)
  else if negb global_enabled then (s, BotDisabled)
  else if user_blocked then (s, UserBlocked)
  else if bool_decide (user_id ∈ processing_users s) then (s, AlreadyProcessing)
  else
    let s := Bot ({[user_id]} ∪ processing_users s) (duplicate_filter s) in
    match is_duplicate_message s user_id now text with
    | (s, Raise e) => (s, Failed e)
    | (s, Return true) => (s, DuplicateMessage)
    | (s, Return false) => (s, Processing)
    end.

(** The [finally] clause of the [try] block. *)
Definition leave_try (s : bot) (user_id : Z) : bot :=
  Bot (processing_users s ∖ {[user_id]}) (duplicate_filter s).

(** What happens to the bot: a private message arrives, an invocation
    that entered the [try] block leaves it, the command that clears the
    duplicates of a user runs. *)
Inductive event :=
| Message (user_id : Z) (text : pyval) (global_enabled user_blocked : bool) (now : Q)
| Completed (user_id : Z)
| ClearDuplicates (user_id : Z).

(** The bot together with the users whose invocation is inside the
    [try] block. *)
Record world := World {
  the_bot : bot;
  in_try : gset Z
}.

Definition world_start : world := World bot_start ∅.

Definition react (x : world) (ev : event) : world * option verdict :=
  match ev with
  | Message user_id text global_enabled user_blocked now =>
    let '(s, v) :=
      handle_private_message (the_bot x) text user_id global_enabled user_blocked now in
    (World s (match v with
              | Processing => {[user_id]} ∪ in_try x
              | _ => in_try x
              end),
     Some v)
  | Completed user_id =>
    if bool_decide (user_id ∈ in_try x)
    then (World (leave_try (the_bot x) user_id) (in_try x ∖ {[user_id]}), None)
    else (x, None)
  | ClearDuplicates user_id =>
    (World (clear_user_duplicates (the_bot x) user_id) (in_try x), None)
  end.

Definition play (x : world) (evs : list event) : world :=
  foldl (fun x ev => (react x ev).1) x evs.

End Handler.

(** A user in [processing_users] whose invocation is not inside the [try]
    block. *)
Definition stuck (x : world) (user_id : Z) : Prop :=
  (user_id ∈ processing_users (the_bot x)) /\ (user_id ∉ in_try x).

(** * Properties *)

(** ** Checks of the primitives against the interpreter *)

Example md5_empty : MD5.hexdigest [] = u "d41d8cd98f00b204e9800998ecf8427e".
Proof. vm_compute. reflexivity. Qed.

Example md5_abc :
  MD5.hexdigest (Utf8.encode (u "abc")) = u "900150983cd24fb0d6963f7d28e17f72".
Proof. vm_compute. reflexivity. Qed.

Example md5_two_blocks :
  MD5.hexdigest (repeat 97 64) = u "014842d480b571495a4a0363793f7367".
Proof. vm_compute. reflexivity. Qed.

Example md5_privet :
  MD5.hexdigest (Utf8.encode (u "привет")) = u "608333adc72f545078ede3aad71bfe74".
Proof. vm_compute. reflexivity. Qed.

Example normalize_privet : normalize_str (u "  Привет,   МИР! ") = u "привет мир".
Proof. vm_compute. reflexivity. Qed.

Example similarity_half :
  _calculate_similarity (u "show the warehouse") (u "Show   warehouse, now please") = (2 # 5)%Q.
Proof. vm_compute. reflexivity. Qed.

(** ** The deques of the users *)

Lemma deque_of_insert um u d u' :
  deque_of (<[u := d]> um) u' = if decide (u = u') then d else deque_of um u'.
Proof. unfold deque_of. rewrite lookup_insert. by case_decide. Qed.

Lemma deque_of_insert_eq um u d : deque_of (<[u := d]> um) u = d.
Proof. rewrite deque_of_insert. by rewrite decide_True. Qed.

Lemma deque_of_insert_ne um u d u' : u <> u' -> deque_of (<[u := d]> um) u' = deque_of um u'.
Proof. intros. rewrite deque_of_insert. by rewrite decide_False. Qed.

Lemma deque_of_empty u : deque_of ∅ u = [].
Proof. unfold deque_of. by rewrite lookup_empty. Qed.

(** ** Preservation of the consistency of deques and hashes *)

Section Consistency.
Implicit Types (um : gmap Z (list entry)) (mh : gset str) (d : list entry).

(** Storing the deque a user already has changes nothing. *)
Lemma cache_touch um mh u :
  consistent_cache um mh -> consistent_cache (<[u := deque_of um u]> um) mh.
Proof.
  assert (Hd : forall u', deque_of (<[u := deque_of um u]> um) u' = deque_of um u').
  { intros u'. rewrite deque_of_insert. case_decide; by subst. }
  intros [[Hn Hx] Hi]. repeat split.
  - intros u'. rewrite Hd. apply Hn.
  - intros u1 u2 e1 e2. rewrite !Hd. apply Hx.
  - intros u' e. rewrite Hd. apply Hi.
Qed.

Lemma hashes_distinct_sublist um um' :
  (forall u, deque_of um' u `sublist_of` deque_of um u) ->
  hashes_distinct um -> hashes_distinct um'.
Proof.
  intros Hsub [Hn Hx]. split.
  - intros u. eapply sublist_NoDup; [apply (Hn u) |].
    by apply fmap_sublist.
  - intros u1 u2 e1 e2 Hne H1 H2. apply (Hx u1 u2); [done | |].
    + by eapply elem_of_sublist.
    + by eapply elem_of_sublist.
Qed.

Lemma hashes_indexed_sublist um um' mh :
  (forall u, deque_of um' u `sublist_of` deque_of um u) ->
  hashes_indexed um mh -> hashes_indexed um' mh.
Proof.
  intros Hsub Hi u e He. apply (Hi u).
  by eapply elem_of_sublist.
Qed.

Lemma insert_sublist um u d d' :
  d' `sublist_of` d ->
  forall u', deque_of (<[u := d']> um) u' `sublist_of` deque_of (<[u := d]> um) u'.
Proof. intros Hs u'. rewrite !deque_of_insert. by case_decide. Qed.

(** [popleft] together with [discard]. *)
Lemma cache_pop_discard um mh u e d :
  consistent_cache (<[u := e :: d]> um) mh ->
  consistent_cache (<[u := d]> um) (mh ∖ {[msg_hash e]}).
Proof.
  intros [Hd Hi].
  assert (Hs : d `sublist_of` e :: d) by (by apply sublist_cons).
  split; [by eapply hashes_distinct_sublist; [apply insert_sublist |] |].
  destruct Hd as [Hn Hx].
  pose proof (Hn u) as Hu. rewrite deque_of_insert_eq, fmap_cons in Hu.
  apply NoDup_cons in Hu as [Hhd _].
  intros u' e' He'. apply elem_of_difference. split.
  - eapply (hashes_indexed_sublist _ _ _ (insert_sublist um u _ _ Hs)); done.
  - rewrite elem_of_singleton. intros Heq.
    destruct (decide (u = u')) as [<- | Hne].
    + rewrite deque_of_insert_eq in He'. apply Hhd. rewrite <- Heq.
      by apply list_elem_of_fmap_2.
    + apply (Hx u' u e' e); [done | | | done].
      * rewrite deque_of_insert_ne in He' by done.
        by rewrite deque_of_insert_ne.
      * rewrite deque_of_insert_eq. by left.
Qed.

(** Dropping the leftmost entry and keeping its hash in the set. *)
Lemma cache_tail um mh u d :
  consistent_cache (<[u := d]> um) mh -> consistent_cache (<[u := tail d]> um) mh.
Proof.
  assert (Hs : tail d `sublist_of` d).
  { destruct d; [done |]. by apply sublist_cons. }
  intros [Hd Hi]. split.
  - by eapply hashes_distinct_sublist; [apply insert_sublist |].
  - by eapply hashes_indexed_sublist; [apply insert_sublist |].
Qed.

(** Appending an entry whose hash is not in the set. *)
Lemma cache_push um mh u x :
  consistent_cache um mh -> msg_hash x ∉ mh ->
  consistent_cache (<[u := deque_of um u ++ [x]]> um) ({[msg_hash x]} ∪ mh).
Proof.
  intros [[Hn Hx] Hi] Hnew.
  assert (Hfresh : forall u' e', e' ∈ deque_of um u' -> msg_hash e' <> msg_hash x).
  { intros u' e' He' Heq. apply Hnew. rewrite <- Heq. by apply (Hi u'). }
  repeat split.
  - intros u'. rewrite deque_of_insert. case_decide; [| apply Hn].
    rewrite fmap_app. apply NoDup_app. split; [apply Hn |]. split.
    + intros h Hh Hh'. apply list_elem_of_fmap in Hh as (e' & -> & He').
      cbn in Hh'. apply list_elem_of_singleton in Hh'. by apply (Hfresh u e').
    + cbn. apply NoDup_singleton.
  - intros u1 u2 e1 e2 Hne. rewrite !deque_of_insert.
    destruct (decide (u = u1)) as [E1 | N1], (decide (u = u2)) as [E2 | N2].
    + congruence.
    + rewrite elem_of_app, list_elem_of_singleton. intros [H1 | ->] H2.
      * apply (Hx u1 u2); [done | by rewrite <- E1 | done].
      * intros Heq. by apply (Hfresh u2 e2).
    + rewrite elem_of_app, list_elem_of_singleton. intros H1 [H2 | ->].
      * apply (Hx u1 u2); [done | done | by rewrite <- E2].
      * by apply (Hfresh u1 e1).
    + by apply (Hx u1 u2).
  - intros u' e'. rewrite deque_of_insert. case_decide.
    + rewrite elem_of_app, list_elem_of_singleton. intros [He' | ->].
      * apply elem_of_union_r. by apply (Hi u).
      * apply elem_of_union_l. by apply elem_of_singleton.
    + intros He'. apply elem_of_union_r. by apply (Hi u').
Qed.

End Consistency.

Section Preservation.
Context `{Ucd}.
Implicit Types (f : filter) (d : list entry).

Lemma pop_old_consistent w t um user_id d mh :
  consistent_cache (<[user_id := d]> um) mh ->
  consistent_cache (<[user_id := (pop_old w t d mh).1]> um) (pop_old w t d mh).2.
Proof.
  revert mh. induction d as [| e d IH]; intros mh Hc; cbn [pop_old]; [done |].
  destruct (Qgt_bool _ _); [| done].
  apply IH. by apply cache_pop_discard.
Qed.

Lemma cleanup_consistent f user_id t :
  consistent f -> consistent (_cleanup_old_messages f user_id t).
Proof.
  unfold consistent, _cleanup_old_messages. intros Hc.
  pose proof (pop_old_consistent (time_window f) t (user_messages f) user_id
                (deque_of (user_messages f) user_id) (message_hashes f)
                (cache_touch _ _ _ Hc)) as Hp.
  by destruct (pop_old _ _ _ _).
Qed.

Lemma judge_consistent f user_id t m :
  consistent f -> consistent (judge f user_id t m).1.
Proof.
  intros Hc. unfold judge.
  destruct (_normalize_text m) as [[| c n] | ex]; [done | | done].
  destruct m as [| | | text]; try done.
  case_bool_decide as Hin; [done |].
  destruct (similar_to_some _ _ _); [done |].
  cbn [fst]. unfold consistent, set_cache, deque_append. cbn.
  case_match.
  - rewrite <- (insert_insert_eq (user_messages f) user_id
                 (tail (deque_of (user_messages f) user_id ++ [Entry t (hash_of (c :: n)) text]))
                 (deque_of (user_messages f) user_id ++ [Entry t (hash_of (c :: n)) text])).
    apply cache_tail. rewrite insert_insert_eq.
    by apply (cache_push _ _ _ (Entry t (hash_of (c :: n)) text)).
  - by apply (cache_push _ _ _ (Entry t (hash_of (c :: n)) text)).
Qed.

Lemma is_duplicate_consistent f user_id t m :
  consistent f -> consistent (is_duplicate f user_id t m).1.
Proof.
  intros Hc. unfold is_duplicate.
  apply judge_consistent, cleanup_consistent. exact Hc.
Qed.

Lemma discard_all_consistent um user_id d mh :
  consistent_cache (<[user_id := d]> um) mh ->
  consistent_cache (<[user_id := []]> um)
                   (foldl (fun mh e => mh ∖ {[msg_hash e]}) mh d).
Proof.
  revert mh. induction d as [| e d IH]; intros mh Hc; [done |].
  cbn [foldl]. apply IH. by apply cache_pop_discard.
Qed.

Lemma clear_user_cache_consistent f user_id :
  consistent f -> consistent (clear_user_cache f user_id).
Proof.
  unfold consistent, clear_user_cache. intros Hc.
  destruct (user_messages f !! user_id) as [d |] eqn:E; [| done].
  cbn. apply discard_all_consistent.
  assert (d = deque_of (user_messages f) user_id) as ->
    by (unfold deque_of; by rewrite E).
  by apply cache_touch.
Qed.

Lemma empty_consistent mh : consistent_cache ∅ mh.
Proof.
  repeat split.
  - intros a. rewrite deque_of_empty. constructor.
  - intros a1 a2 e1 e2 _. rewrite deque_of_empty. by intros ?%elem_of_nil.
  - intros a e. rewrite deque_of_empty. by intros ?%elem_of_nil.
Qed.

Lemma perform_consistent f c : consistent f -> consistent (perform f c).
Proof.
  destruct c; cbn [perform].
  - apply is_duplicate_consistent.
  - apply clear_user_cache_consistent.
  - intros _. apply empty_consistent.
Qed.

Lemma run_consistent f cs : consistent f -> consistent (run f cs).
Proof.
  revert f. induction cs as [| c cs IH]; intros f Hc; [done |].
  apply IH. by apply perform_consistent.
Qed.

Lemma reachable_consistent f : reachable f -> consistent f.
Proof.
  intros (w & m & t & cs & ->). apply run_consistent. apply empty_consistent.
Qed.

End Preservation.

Lemma elem_of_deque_of (um : gmap Z (list entry)) a e :
  e ∈ deque_of um a <-> exists d, um !! a = Some d /\ e ∈ d.
Proof.
  unfold deque_of. destruct (um !! a) as [d |]; cbn.
  - split; [by exists d | by intros (? & [= <-] & ?)].
  - split; [by intros ?%elem_of_nil | by intros (? & [=] & _)].
Qed.

Lemma carried_items um h : carried um h <-> carried_in_items um h.
Proof.
  unfold carried, carried_in_items. rewrite Exists_exists. split.
  - intros (a & e & (d & Hd & He)%elem_of_deque_of & Hh).
    exists (a, d). split; [by apply elem_of_map_to_list |].
    apply Exists_exists. by exists e.
  - intros ([a d] & Hd%elem_of_map_to_list & (e & He & Hh)%Exists_exists).
    exists a, e. split; [| done]. apply elem_of_deque_of. by exists d.
Qed.

(** ** Hash uniqueness and the set of hashes *)

(** C10: in every reachable state no two retained entries, of one user or
    of two, carry the same hash; hence clearing the cache of one user,
    which discards the hash of each cleared entry unconditionally, leaves
    every entry of any other user in place with its hash still in the set
    of hashes. *)
Theorem retained_hashes_unique `{Ucd} (f : filter) :
  reachable f ->
  hashes_distinct (user_messages f) /\
  forall user_id other e,
    other <> user_id ->
    e ∈ deque_of (user_messages f) other ->
    e ∈ deque_of (user_messages (clear_user_cache f user_id)) other /\
    msg_hash e ∈ message_hashes (clear_user_cache f user_id).
Proof.
  intros Hc%reachable_consistent. split; [apply Hc |].
  intros user_id other e Hne He.
  assert (He' : e ∈ deque_of (user_messages (clear_user_cache f user_id)) other).
  { unfold clear_user_cache. destruct (user_messages f !! user_id); [| done].
    cbn. by rewrite deque_of_insert_ne. }
  split; [done |].
  exact (proj2 (clear_user_cache_consistent f user_id Hc) other e He').
Qed.

Lemma retained_hashes_unique_witness :
  let f := run (init 300 10 (4 # 5))
             [IsDuplicate 1 0 (PyStr (u "hello")); IsDuplicate 2 1 (PyStr (u "world"))] in
  reachable f /\
  hashes_distinct (user_messages f) /\
  forall user_id other e,
    other <> user_id ->
    e ∈ deque_of (user_messages f) other ->
    e ∈ deque_of (user_messages (clear_user_cache f user_id)) other /\
    msg_hash e ∈ message_hashes (clear_user_cache f user_id).
Proof.
  intros f.
  assert (Hr : reachable f) by (eexists _, _, _, _; reflexivity).
  split; [exact Hr |]. exact (retained_hashes_unique f Hr).
Defined.

(** C2 at the failing input: with a bound of one entry per user, after the
    admission of "alpha" and then of "beta" from the same user the set of
    hashes still holds the hash of "alpha", which no retained entry
    carries: the entry was dropped by the bounded deque and its hash was
    not discarded. *)
Theorem capacity_eviction_orphans_hash :
  let f := run (init 60 1 (4 # 5))
             [IsDuplicate 1 0 (PyStr (u "alpha")); IsDuplicate 1 1 (PyStr (u "beta"))] in
  reachable f /\
  msg_text <$> deque_of (user_messages f) 1 = [u "beta"] /\
  hash_of (normalize_str (u "alpha")) ∈ message_hashes f /\
  ~ carried (user_messages f) (hash_of (normalize_str (u "alpha"))).
Proof.
  intros f. split; [by eexists _, _, _, _ |].
  split; [by vm_compute |]. split.
  - apply (bool_decide_unpack _). by vm_compute.
  - rewrite carried_items. apply (bool_decide_unpack _). by vm_compute.
Qed.

(** C1 at the failing input: with a bound of five entries, after six
    distinct and mutually dissimilar messages of one user, the deque holds
    messages 2-6, and an exact repeat of the first message is reported as a
    duplicate, as are the repeats of messages 2-6. *)
Theorem capacity_eviction_still_blocks_first :
  let msgs := [u "alpha"; u "beta"; u "gamma"; u "delta"; u "epsilon"; u "zeta"] in
  let '(f, answers) :=
    send_all (init 60 5 (4 # 5)) 1 (zip [0; 1; 2; 3; 4; 5]%Q msgs) in
  answers = replicate 6 (Return false) /\
  msg_text <$> deque_of (user_messages f) 1 = drop 1 msgs /\
  (is_duplicate f 1 6 (PyStr (u "alpha"))).2 = Return true /\
  (fun m => (is_duplicate f 1 6 (PyStr m)).2) <$> drop 1 msgs
  = replicate 5 (Return true).
Proof.
  vm_compute. repeat split.
Qed.

(** C6 at the failing input: punctuation is removed after the runs of
    white space have been collapsed, so a punctuation token standing between
    two words leaves two spaces behind, and one standing first leaves a
    leading space; "a , b" and "a b" get different normal forms and
    different hashes. *)
Theorem normalization_leaves_spaces :
  normalize_str (u "a , b") = u "a  b" /\
  normalize_str (u "a b") = u "a b" /\
  hash_of (normalize_str (u "a , b")) <> hash_of (normalize_str (u "a b")) /\
  normalize_str (u "! a") = u " a".
Proof.
  repeat split; try (vm_compute; reflexivity).
  vm_compute. discriminate.
Qed.

(** ** Recent messages *)

Lemma slice_from_last {A} (limit : Z) (l : list A) :
  0 < limit ->
  slice_from (- limit) l = drop (length l - Z.to_nat limit) l.
Proof.
  intros Hpos. unfold slice_from.
  replace (- limit <? 0) with true by (symmetry; apply Z.ltb_lt; lia).
  f_equal. lia.
Qed.

(** For a positive limit the result is the last [limit] entries of the
    deque, oldest first. *)
Lemma get_user_recent_messages_positive f user_id limit :
  0 < limit ->
  let d := deque_of (user_messages f) user_id in
  get_user_recent_messages f user_id limit = drop (length d - Z.to_nat limit) d /\
  (length (get_user_recent_messages f user_id limit) <= Z.to_nat limit)%nat.
Proof.
  intros Hpos d. subst d. unfold get_user_recent_messages, deque_of.
  destruct (user_messages f !! user_id) as [d |]; cbn [default].
  - rewrite slice_from_last by done. split; [done |]. rewrite length_drop. lia.
  - split; [done | cbn; lia].
Qed.

(** C9 at the failing input: with two retained entries, a limit of 0
    returns both of them, the slice [[-0:]] being the whole list. *)
Theorem recent_messages_limit_zero :
  let f := run (init 300 10 (4 # 5))
             [IsDuplicate 1 0 (PyStr (u "hello")); IsDuplicate 1 1 (PyStr (u "world"))] in
  msg_text <$> get_user_recent_messages f 1 0 = [u "hello"; u "world"] /\
  ~ (length (get_user_recent_messages f 1 0) <= 0)%nat.
Proof.
  intros f. split; [by vm_compute |].
  replace (length (get_user_recent_messages f 1 0)) with 2%nat by (by vm_compute).
  lia.
Qed.

(** ** Two users sending the same text *)

Section CrossUser.
Context `{Ucd}.

Lemma cleanup_no_deque f user_id t :
  deque_of (user_messages f) user_id = [] ->
  _cleanup_old_messages f user_id t
  = set_cache f (<[user_id := []]> (user_messages f)) (message_hashes f).
Proof. unfold _cleanup_old_messages. by intros ->. Qed.

Lemma normalize_text_str text :
  _normalize_text (PyStr text) = Return (normalize_str text).
Proof. unfold _normalize_text. by destruct text. Qed.

(** The three ways out of [judge] for a text with a non-empty normal
    form. *)
Lemma judge_exact f user_id t text :
  normalize_str text <> [] ->
  hash_of (normalize_str text) ∈ message_hashes f ->
  judge f user_id t (PyStr text) = (incr_blocked f, Return true).
Proof.
  intros Hn Hin. unfold judge. rewrite normalize_text_str.
  destruct (normalize_str text); [done |]. by rewrite bool_decide_eq_true_2.
Qed.

Lemma judge_similar f user_id t text :
  normalize_str text <> [] ->
  hash_of (normalize_str text) ∉ message_hashes f ->
  similar_to_some f text (deque_of (user_messages f) user_id) = true ->
  judge f user_id t (PyStr text) = (incr_blocked f, Return true).
Proof.
  intros Hn Hin Hs. unfold judge. rewrite normalize_text_str.
  destruct (normalize_str text); [done |].
  rewrite bool_decide_eq_false_2 by done. by rewrite Hs.
Qed.

Lemma judge_new f user_id t text :
  normalize_str text <> [] ->
  hash_of (normalize_str text) ∉ message_hashes f ->
  similar_to_some f text (deque_of (user_messages f) user_id) = false ->
  judge f user_id t (PyStr text)
  = (set_cache f
       (<[user_id := deque_append (max_messages_per_user f)
                       (deque_of (user_messages f) user_id)
                       (Entry t (hash_of (normalize_str text)) text)]>
          (user_messages f))
       ({[hash_of (normalize_str text)]} ∪ message_hashes f),
     Return false).
Proof.
  intros Hn Hin Hs. unfold judge. rewrite normalize_text_str.
  destruct (normalize_str text); [done |].
  rewrite bool_decide_eq_false_2 by done. by rewrite Hs.
Qed.

(** C3 as amended: on a fresh filter, whatever the configuration and the
    clock readings, the first user to send a text whose normal form is not
    empty is admitted, and a different user sending the same text next is
    reported as a duplicate, the hash being in the set shared by all
    users. *)
Theorem same_text_second_user_blocked (w : Q) (m : nat) (th : Q)
    (user1 user2 : Z) (t1 t2 : Q) (text : str) :
  normalize_str text <> [] ->
  user1 <> user2 ->
  let r1 := is_duplicate (init w m th) user1 t1 (PyStr text) in
  r1.2 = Return false /\
  (is_duplicate r1.1 user2 t2 (PyStr text)).2 = Return true.
Proof.
  intros Hn Hne r1.
  assert (E1 : r1 = judge (set_cache (incr_processed (init w m th))
                             (<[user1 := []]> ∅) ∅) user1 t1 (PyStr text)).
  { subst r1. unfold is_duplicate. by rewrite cleanup_no_deque. }
  rewrite judge_new in E1; [| done | cbn; set_solver | by cbn; rewrite deque_of_insert_eq].
  rewrite E1. split; [done |]. cbn [fst].
  unfold is_duplicate. rewrite cleanup_no_deque.
  - rewrite judge_exact; [done | done |]. cbn. set_solver.
  - cbn. rewrite deque_of_insert_ne by done.
    rewrite deque_of_insert_ne by done. apply deque_of_empty.
Qed.

End CrossUser.

Lemma same_text_second_user_blocked_witness :
  normalize_str (u "Привет!") <> [] /\ (1 <> 2) /\
  let r1 := is_duplicate (init 300 10 (4 # 5)) 1 0 (PyStr (u "Привет!")) in
  r1.2 = Return false /\
  (is_duplicate r1.1 2 1 (PyStr (u "Привет!"))).2 = Return true.
Proof.
  assert (Hn : normalize_str (u "Привет!") <> []) by (vm_compute; discriminate).
  assert (Hne : 1 <> 2) by lia.
  split; [exact Hn |]. split; [exact Hne |].
  exact (same_text_second_user_blocked 300 10 (4 # 5) 1 2 0 1 (u "Привет!") Hn Hne).
Defined.

(** C3 as stated fails: on a fresh filter the text "Привет!" sent by user 1
    and then by user 2 is admitted the first time and blocked the second. *)
Lemma same_text_second_user_counterexample :
  let r1 := is_duplicate (init 300 10 (4 # 5)) 1 0 (PyStr (u "Привет!")) in
  let r2 := is_duplicate r1.1 2 1 (PyStr (u "Привет!")) in
  u "Привет!" <> [] /\ r1.2 = Return false /\ r2.2 = Return true /\
  ~ (r1.2 = Return false /\ r2.2 = Return false).
Proof.
  vm_compute. repeat split; try discriminate. intros [_ [=]].
Qed.

(** ** The scenario of the test script *)

Lemma is_duplicate_fresh `{Ucd} f user_id t m e d :
  user_messages f !! user_id = Some (e :: d) ->
  (t - timestamp e <= time_window f)%Q ->
  is_duplicate f user_id t m = judge (incr_processed f) user_id t m.
Proof.
  intros Hd Hfresh. unfold is_duplicate. f_equal.
  apply Qle_bool_iff in Hfresh.
  destruct f as [w mx th um mh bc tp]. cbn [user_messages time_window] in Hd, Hfresh.
  assert (Hq : deque_of um user_id = e :: d) by (unfold deque_of; by rewrite Hd).
  unfold _cleanup_old_messages, incr_processed, set_cache.
  cbn [user_messages time_window message_hashes max_messages_per_user
       similarity_threshold blocked_count total_processed].
  rewrite Hq. cbn [pop_old]. unfold Qgt_bool. rewrite Hfresh.
  cbn [negb]. by rewrite insert_id.
Qed.

(** C4: with a window of 60 s, a bound of 5 and a threshold of 0.8, the
    five messages of user 12345, each sent within the window of the first,
    are answered false, true, false, true, true, and the statistics are then
    5 processed, 3 blocked, 1 user and 2 cached messages. *)
Theorem test_script_scenario (t1 t2 t3 t4 t5 : Q) :
  Forall (fun t => (t - t1 <= 60)%Q) [t2; t3; t4; t5] ->
  let '(f, answers) :=
    send_all (init 60 5 (4 # 5)) 12345
      [(t1, u "Привет!"); (t2, u "Привет!"); (t3, u "Как дела?");
       (t4, u "Как дела?"); (t5, u "Как дела?")] in
  answers = [Return false; Return true; Return false; Return true; Return true] /\
  get_stats f = Stats 5 3 1 2.
Proof.
  intros Hw.
  apply Forall_cons in Hw as [H2 Hw]. apply Forall_cons in Hw as [H3 Hw].
  apply Forall_cons in Hw as [H4 Hw]. apply Forall_cons in Hw as [H5 _].
  cbn [send_all].
  destruct (is_duplicate _ _ t1 _) as [f1 r1] eqn:E1.
  vm_compute in E1. injection E1 as <- <-.
  erewrite is_duplicate_fresh; [| reflexivity | exact H2].
  destruct (judge _ _ t2 _) as [f2 r2] eqn:E2.
  vm_compute in E2. injection E2 as <- <-.
  erewrite is_duplicate_fresh; [| reflexivity | exact H3].
  destruct (judge _ _ t3 _) as [f3 r3] eqn:E3.
  vm_compute in E3. injection E3 as <- <-.
  erewrite is_duplicate_fresh; [| reflexivity | exact H4].
  destruct (judge _ _ t4 _) as [f4 r4] eqn:E4.
  vm_compute in E4. injection E4 as <- <-.
  erewrite is_duplicate_fresh; [| reflexivity | exact H5].
  destruct (judge _ _ t5 _) as [f5 r5] eqn:E5.
  vm_compute in E5. injection E5 as <- <-.
  split; [reflexivity | vm_compute; reflexivity].
Qed.

Lemma test_script_scenario_witness :
  Forall (fun t => (t - 0 <= 60)%Q) [10; 20; 30; 40]%Q /\
  let '(f, answers) :=
    send_all (init 60 5 (4 # 5)) 12345
      [(0%Q, u "Привет!"); (10%Q, u "Привет!"); (20%Q, u "Как дела?");
       (30%Q, u "Как дела?"); (40%Q, u "Как дела?")] in
  answers = [Return false; Return true; Return false; Return true; Return true] /\
  get_stats f = Stats 5 3 1 2.
Proof.
  assert (Hw : Forall (fun t => (t - 0 <= 60)%Q) [10; 20; 30; 40]%Q).
  { repeat constructor; vm_compute; discriminate. }
  split; [exact Hw |].
  exact (test_script_scenario 0 10 20 30 40 Hw).
Defined.

(** ** Statistics *)

Section Stats.
Context `{Ucd}.

Lemma dom_cleanup f user_id t :
  dom (user_messages (_cleanup_old_messages f user_id t))
  = {[user_id]} ∪ dom (user_messages f).
Proof.
  unfold _cleanup_old_messages. destruct (pop_old _ _ _ _). cbn.
  apply dom_insert_L.
Qed.

Lemma dom_judge f user_id t m :
  user_id ∈ dom (user_messages f) ->
  dom (user_messages (judge f user_id t m).1) = dom (user_messages f).
Proof.
  intros Hin. unfold judge.
  destruct (_normalize_text m) as [[| c n] | ex]; [done | | done].
  destruct m as [| | | text]; try done.
  case_bool_decide; [done |].
  destruct (similar_to_some _ _ _); [done |].
  cbn. rewrite dom_insert_L.
  apply subseteq_union_1_L. by apply singleton_subseteq_l.
Qed.

Lemma dom_perform f c :
  dom (user_messages (perform f c)) = note_caller (dom (user_messages f)) c.
Proof.
  destruct c as [user_id t m | user_id |]; cbn [perform note_caller].
  - unfold is_duplicate. rewrite dom_judge; rewrite dom_cleanup; [done |].
    set_solver.
  - unfold clear_user_cache.
    destruct (user_messages f !! user_id) as [d |] eqn:E; [| done].
    cbn. rewrite dom_insert_L.
    apply subseteq_union_1_L, singleton_subseteq_l.
    apply elem_of_dom. eauto.
  - cbn. apply dom_empty_L.
Qed.

Lemma dom_run f cs :
  dom (user_messages (run f cs)) = foldl note_caller (dom (user_messages f)) cs.
Proof.
  revert f. induction cs as [| c cs IH]; intros f; [done |].
  cbn [run foldl]. fold (run (perform f c) cs). by rewrite IH, dom_perform.
Qed.

End Stats.

Lemma sum_list_with_agree {A} (g g' : A -> nat) (l : list A) :
  (forall x, x ∈ l -> g x = g' x) -> sum_list_with g l = sum_list_with g' l.
Proof.
  induction l as [| x l IH]; intros Hg; [done |]. cbn.
  rewrite (Hg x) by (by left). rewrite IH; [done |].
  intros y Hy. apply Hg. by right.
Qed.

(** The sum over the values of the dictionary is the sum, over the users
    it holds, of the length of the deque of each. *)
Lemma cached_by_user (um : gmap Z (list entry)) :
  sum_list_with length (snd <$> map_to_list um)
  = sum_list_with (fun a => length (deque_of um a)) (elements (dom um)).
Proof.
  induction um as [| a d um Hnone IH] using map_ind.
  - by rewrite map_to_list_empty, dom_empty_L, elements_empty.
  - rewrite map_to_list_insert by done. rewrite dom_insert_L.
    rewrite elements_union_singleton by (by apply not_elem_of_dom).
    cbn. rewrite deque_of_insert_eq. f_equal. rewrite IH.
    apply sum_list_with_agree. intros b Hb%elem_of_elements.
    rewrite deque_of_insert_ne; [done |].
    intros ->. by apply not_elem_of_dom in Hnone.
Qed.

(** C5 as amended: [get_stats] reads the counters of the filter;
    [active_users] is the number of users the dictionary holds, which after
    any sequence of calls on a new filter is the number of users that called
    [is_duplicate] since the last [clear_all_cache], whether their deques
    hold entries or not; [cached_messages] is the sum over these users of
    the length of their deques. *)
Theorem stats_count_every_caller `{Ucd} (w : Q) (m : nat) (th : Q) (cs : list call) :
  let f := run (init w m th) cs in
  stat_total_processed (get_stats f) = total_processed f /\
  stat_blocked_count (get_stats f) = blocked_count f /\
  active_users (get_stats f) = size (callers cs) /\
  cached_messages (get_stats f)
  = sum_list_with (fun a => length (deque_of (user_messages f) a))
                  (elements (callers cs)).
Proof.
  intros f.
  assert (Hd : dom (user_messages f) = callers cs).
  { subst f. rewrite dom_run. cbn. by rewrite dom_empty_L. }
  split; [done |]. split; [done |]. split.
  - cbn. by rewrite <- Hd, size_dom.
  - cbn. by rewrite cached_by_user, Hd.
Qed.

(** C5 as stated fails: after a call of [is_duplicate] with the empty text
    on a new filter no deque holds an entry, and [active_users] is 1; the
    same holds after an admitted message followed by [clear_user_cache]. *)
Lemma stats_active_users_counterexample :
  let f := run (init 300 10 (4 # 5)) [IsDuplicate 1 0 (PyStr [])] in
  let g := run (init 300 10 (4 # 5)) [IsDuplicate 1 0 (PyStr (u "hello")); ClearUserCache 1] in
  nonempty_histories f = 0%nat /\ active_users (get_stats f) = 1%nat /\
  nonempty_histories g = 0%nat /\ active_users (get_stats g) = 1%nat /\
  active_users (get_stats f) <> nonempty_histories f.
Proof. vm_compute. repeat split. discriminate. Qed.

(** ** Arguments that are not texts *)

Lemma pop_old_suffix w t d mh : (pop_old w t d mh).1 `suffix_of` d.
Proof.
  revert mh. induction d as [| e d IH]; intros mh; cbn [pop_old]; [done |].
  destruct (Qgt_bool _ _); [| done].
  by apply suffix_cons_r.
Qed.

Lemma cleanup_deques_suffix f user_id t a :
  deque_of (user_messages (_cleanup_old_messages f user_id t)) a
  `suffix_of` deque_of (user_messages f) a.
Proof.
  unfold _cleanup_old_messages.
  pose proof (pop_old_suffix (time_window f) t
                (deque_of (user_messages f) user_id) (message_hashes f)) as Hs.
  destruct (pop_old _ _ _ _) as [d mh]. cbn in *.
  rewrite deque_of_insert. case_decide; [by subst | done].
Qed.

Lemma cleanup_config f user_id t :
  let g := _cleanup_old_messages f user_id t in
  similarity_threshold g = similarity_threshold f /\
  blocked_count g = blocked_count f /\
  total_processed g = total_processed f.
Proof. cbn. unfold _cleanup_old_messages. by destruct (pop_old _ _ _ _). Qed.


Section ObjectProperties.
Context `{Ucd}.





End ObjectProperties.




(** ** The threshold *)

(** C8: with a threshold of 0.8, for a text with a non-empty normal form
    whose hash is not in the set, [is_duplicate] returns true if the score
    against some retained entry of the user is exactly 0.8, and false if
    the score against every retained entry of the user is 0.79. *)
Theorem threshold_is_inclusive `{Ucd} (f : filter) (user_id : Z) (t : Q) (text : str) :
  let g := _cleanup_old_messages (incr_processed f) user_id t in
  (similarity_threshold f == 4 # 5)%Q ->
  normalize_str text <> [] ->
  hash_of (normalize_str text) ∉ message_hashes g ->
  ((exists e, e ∈ deque_of (user_messages g) user_id /\
              (_calculate_similarity text (msg_text e) == 4 # 5)%Q) ->
   (is_duplicate f user_id t (PyStr text)).2 = Return true) /\
  ((forall e, e ∈ deque_of (user_messages g) user_id ->
              (_calculate_similarity text (msg_text e) == 79 # 100)%Q) ->
   (is_duplicate f user_id t (PyStr text)).2 = Return false).
Proof.
  intros g Hth Hn Hh.
  assert (Hg : (similarity_threshold g == 4 # 5)%Q).
  { subst g. destruct (cleanup_config (incr_processed f) user_id t) as (-> & _).
    exact Hth. }
  unfold is_duplicate. fold g. split.
  - intros (e & He & Hs). rewrite judge_similar; [done | done | done |].
    unfold similar_to_some. apply existsb_exists. exists e.
    split; [by apply list_elem_of_In |].
    apply Qle_bool_iff. rewrite Hg, Hs. apply Qle_refl.
  - intros Hall. rewrite judge_new; [done | done | done |].
    unfold similar_to_some. apply not_true_is_false.
    intros (e & He%list_elem_of_In & Hle)%existsb_exists.
    apply Qle_bool_iff in Hle. rewrite Hg, (Hall e He) in Hle.
    revert Hle. unfold Qle. cbn. lia.
Qed.

Lemma threshold_is_inclusive_witness :
  let fa := (is_duplicate (init 300 10 (4 # 5)) 1 0 (PyStr (u "one two three four"))).1 in
  let fb := (is_duplicate (init 300 10 (4 # 5)) 1 0 (PyStr (sample_words 79))).1 in
  (_calculate_similarity (u "one two three four five") (u "one two three four") == 4 # 5)%Q /\
  (_calculate_similarity (sample_words 100) (sample_words 79) == 79 # 100)%Q /\
  (is_duplicate fa 1 1 (PyStr (u "one two three four five"))).2 = Return true /\
  (is_duplicate fb 1 1 (PyStr (sample_words 100))).2 = Return false.
Proof.
  intros fa fb.
  assert (Sa : (_calculate_similarity (u "one two three four five")
                  (u "one two three four") == 4 # 5)%Q) by (vm_compute; reflexivity).
  assert (Sb : (_calculate_similarity (sample_words 100) (sample_words 79)
                == 79 # 100)%Q) by (vm_compute; reflexivity).
  split; [exact Sa |]. split; [exact Sb |]. split.
  - refine (proj1 (threshold_is_inclusive fa 1 1 (u "one two three four five") _ _ _) _).
    + vm_compute. reflexivity.
    + vm_compute. discriminate.
    + intros Hin. apply (bool_decide_pack _) in Hin. vm_compute in Hin. exact Hin.
    + exists (Entry 0 (hash_of (normalize_str (u "one two three four")))
                    (u "one two three four")).
      split; [| exact Sa].
      replace (deque_of _ 1) with
        [Entry 0 (hash_of (normalize_str (u "one two three four")))
               (u "one two three four")] by (vm_compute; reflexivity).
      by left.
  - refine (proj2 (threshold_is_inclusive fb 1 1 (sample_words 100) _ _ _) _).
    + vm_compute. reflexivity.
    + vm_compute. discriminate.
    + intros Hin. apply (bool_decide_pack _) in Hin. vm_compute in Hin. exact Hin.
    + intros e.
      replace (deque_of _ 1) with
        [Entry 0 (hash_of (normalize_str (sample_words 79))) (sample_words 79)]
        by (vm_compute; reflexivity).
      intros ->%list_elem_of_singleton. exact Sb.
Defined.

(** * Further properties of the filter *)

(** ** What a call changes *)

Section Effects.
Context `{Ucd}.

(** A hash survives the clean-up loop unless a stale entry carries it. *)
Lemma pop_old_keeps w t d mh h :
  h ∈ mh ->
  (forall e, e ∈ d -> msg_hash e = h -> Qgt_bool (t - timestamp e) w = false) ->
  h ∈ (pop_old w t d mh).2.
Proof.
  revert mh. induction d as [| e d IH]; intros mh Hin Hfresh; cbn [pop_old]; [done |].
  destruct (Qgt_bool _ _) eqn:Es; [| done].
  apply IH.
  - apply elem_of_difference. split; [done |].
    rewrite elem_of_singleton. intros Heq.
    rewrite (Hfresh e) in Es; [done | by left | done].
  - intros e' He'. apply Hfresh. by right.
Qed.

(** The clean-up loop only takes hashes out of the set. *)
Lemma pop_old_subseteq w t d mh : (pop_old w t d mh).2 ⊆ mh.
Proof.
  revert mh. induction d as [| e d IH]; intros mh; cbn [pop_old]; [done |].
  destruct (Qgt_bool _ _); [| done].
  etrans; [apply IH |]. by apply subseteq_difference_l.
Qed.

Lemma cleanup_hashes_subseteq f user_id t :
  message_hashes (_cleanup_old_messages f user_id t) ⊆ message_hashes f.
Proof.
  unfold _cleanup_old_messages.
  pose proof (pop_old_subseteq (time_window f) t
                (deque_of (user_messages f) user_id) (message_hashes f)).
  by destruct (pop_old _ _ _ _).
Qed.

Lemma cleanup_deque_other f user_id t other :
  other <> user_id ->
  deque_of (user_messages (_cleanup_old_messages f user_id t)) other
  = deque_of (user_messages f) other.
Proof.
  intros Hne. unfold _cleanup_old_messages. destruct (pop_old _ _ _ _). cbn.
  by rewrite deque_of_insert_ne.
Qed.

Lemma judge_deque_other f user_id t m other :
  other <> user_id ->
  deque_of (user_messages (judge f user_id t m).1) other
  = deque_of (user_messages f) other.
Proof.
  intros Hne. unfold judge.
  destruct (_normalize_text m) as [[| c n] | ex]; [done | | done].
  destruct m as [| | | text]; try done.
  case_bool_decide; [done |].
  destruct (similar_to_some _ _ _); [done |].
  cbn. by rewrite deque_of_insert_ne.
Qed.

(** X1: a call of [is_duplicate] by one user leaves the deque of every
    other user as it is. *)
Theorem is_duplicate_other_deques (f : filter) (user_id : Z) (t : Q)
    (m : pyval) (other : Z) :
  other <> user_id ->
  deque_of (user_messages (is_duplicate f user_id t m).1) other
  = deque_of (user_messages f) other.
Proof.
  intros Hne. unfold is_duplicate.
  rewrite judge_deque_other by done. by rewrite cleanup_deque_other.
Qed.

Lemma judge_counters f user_id t m :
  let r := judge f user_id t m in
  total_processed r.1 = total_processed f /\
  blocked_count r.1
  = (blocked_count f + if returned_true r.2 then 1 else 0)%nat.
Proof.
  cbn. unfold judge.
  destruct (_normalize_text m) as [[| c n] | ex]; cbn; [split; [done | lia] | | split; [done | lia]].
  destruct m as [| | | text]; cbn; try (split; [done | lia]).
  case_bool_decide; cbn; [split; [done | lia] |].
  destruct (similar_to_some _ _ _); cbn; split; try done; lia.
Qed.

Lemma is_duplicate_counts f user_id t m :
  let r := is_duplicate f user_id t m in
  total_processed r.1 = S (total_processed f) /\
  blocked_count r.1
  = (blocked_count f + if returned_true r.2 then 1 else 0)%nat.
Proof.
  cbn. unfold is_duplicate.
  destruct (judge_counters (_cleanup_old_messages (incr_processed f) user_id t)
              user_id t m) as [Hp Hb].
  destruct (cleanup_config (incr_processed f) user_id t) as (_ & Hb' & Hp').
  rewrite Hp, Hb, Hp', Hb'. done.
Qed.

(** X2: every call of [is_duplicate] adds one to [total_processed], also
    when it raises, and adds one to [blocked_count] exactly when it returns
    true. *)
Theorem is_duplicate_counters (f : filter) (user_id : Z) (t : Q) (m : pyval) :
  let r := is_duplicate f user_id t m in
  total_processed r.1 = S (total_processed f) /\
  blocked_count r.1
  = (blocked_count f + if returned_true r.2 then 1 else 0)%nat.
Proof. apply is_duplicate_counts. Qed.

End Effects.

(** ** Invariants of the reachable states *)

Lemma elem_of_deque_append {A} (maxlen : nat) (d : list A) (x e : A) :
  e ∈ deque_append maxlen d x -> e ∈ d \/ e = x.
Proof.
  unfold deque_append. intros He.
  assert (He' : e ∈ d ++ [x]).
  { destruct (_ <? _)%nat; [| done].
    destruct (d ++ [x]) as [| y k]; [done |]. cbn in He. by right. }
  apply elem_of_app in He' as [? | ->%list_elem_of_singleton]; auto.
Qed.

Lemma length_deque_append {A} (maxlen : nat) (d : list A) (x : A) :
  (length d <= maxlen)%nat -> (length (deque_append maxlen d x) <= maxlen)%nat.
Proof.
  intros Hd. unfold deque_append.
  destruct (_ <? _)%nat eqn:E.
  - destruct (d ++ [x]) as [| y k] eqn:Ed; [cbn; lia |].
    apply (f_equal length) in Ed. rewrite length_app in Ed. cbn in *. lia.
  - apply Nat.ltb_ge in E. done.
Qed.

Lemma elem_of_suffix {A} (k d : list A) (e : A) : k `suffix_of` d -> e ∈ k -> e ∈ d.
Proof. intros [p ->] He. apply elem_of_app. by right. Qed.

Section Invariants.
Context `{Ucd}.

(** The ways out of [judge]. *)
Lemma judge_cases f user_id t m :
  judge f user_id t m = (f, Return false) \/
  (exists e, judge f user_id t m = (f, Raise e)) \/
  judge f user_id t m = (incr_blocked f, Return true) \/
  (exists text,
    m = PyStr text /\ (normalize_str text <> []) /\
    (hash_of (normalize_str text) ∉ message_hashes f) /\
    judge f user_id t m
    = (set_cache f
         (<[user_id := deque_append (max_messages_per_user f)
                         (deque_of (user_messages f) user_id)
                         (Entry t (hash_of (normalize_str text)) text)]>
            (user_messages f))
         ({[hash_of (normalize_str text)]} ∪ message_hashes f),
       Return false)).
Proof.
  unfold judge.
  destruct m as [| b | z | text].
  - by left.
  - destruct b; [right; left; by eexists | by left].
  - unfold _normalize_text. cbn. destruct (z =? 0); cbn; [by left | right; left; by eexists].
  - rewrite normalize_text_str.
    destruct (normalize_str text) as [| c n] eqn:En; [by left |].
    case_bool_decide as Hin; [by right; right; left |].
    destruct (similar_to_some _ _ _); [by right; right; left |].
    right; right; right. exists text. rewrite En. by repeat split.
Qed.

(** An invariant of [init], [is_duplicate], [clear_user_cache] and
    [clear_all_cache] holds in every reachable state. *)
Lemma reachable_invariant (P : filter -> Prop) :
  (forall w m th, P (init w m th)) ->
  (forall f c, P f -> P (perform f c)) ->
  forall f, reachable f -> P f.
Proof.
  intros Hinit Hstep f (w & m & th & cs & ->).
  unfold run. generalize (Hinit w m th). generalize (init w m th).
  induction cs as [| c cs IH]; intros f Hf; [done |].
  cbn [foldl]. apply IH. by apply Hstep.
Qed.

Lemma perform_config f c :
  time_window (perform f c) = time_window f /\
  max_messages_per_user (perform f c) = max_messages_per_user f /\
  similarity_threshold (perform f c) = similarity_threshold f.
Proof.
  destruct c as [a t m | a |]; cbn [perform].
  - unfold is_duplicate.
    assert (Hc : forall g, time_window (_cleanup_old_messages g a t) = time_window g /\
               max_messages_per_user (_cleanup_old_messages g a t) = max_messages_per_user g /\
               similarity_threshold (_cleanup_old_messages g a t) = similarity_threshold g).
    { intros g. unfold _cleanup_old_messages. by destruct (pop_old _ _ _ _). }
    destruct (Hc (incr_processed f)) as (H1 & H2 & H3). cbn in H1, H2, H3.
    destruct (judge_cases (_cleanup_old_messages (incr_processed f) a t) a t m)
      as [-> | [[e ->] | [-> | (text & _ & _ & _ & ->)]]]; cbn; by rewrite ?H1, ?H2, ?H3.
  - unfold clear_user_cache. by destruct (user_messages f !! a).
  - done.
Qed.

Lemma run_config f cs :
  time_window (run f cs) = time_window f /\
  max_messages_per_user (run f cs) = max_messages_per_user f /\
  similarity_threshold (run f cs) = similarity_threshold f.
Proof.
  revert f. induction cs as [| c cs IH]; intros f; [done |].
  cbn [run foldl]. fold (run (perform f c) cs).
  destruct (IH (perform f c)) as (-> & -> & ->). apply perform_config.
Qed.

(** X3: in every reachable state [blocked_count] is at most
    [total_processed]. *)
Theorem blocked_at_most_processed (f : filter) :
  reachable f -> (blocked_count f <= total_processed f)%nat.
Proof.
  revert f.
  apply (reachable_invariant (fun f => (blocked_count f <= total_processed f)%nat));
    [done |].
  intros f c Hf. destruct c as [a t m | a |]; cbn [perform].
  - destruct (is_duplicate_counts f a t m) as [-> ->].
    destruct (returned_true _); lia.
  - unfold clear_user_cache. by destruct (user_messages f !! a).
  - cbn. lia.
Qed.

Lemma perform_bounded f c :
  (forall a, (length (deque_of (user_messages f) a) <= max_messages_per_user f)%nat) ->
  forall a, (length (deque_of (user_messages (perform f c)) a)
             <= max_messages_per_user (perform f c))%nat.
Proof.
  intros Hb b. destruct (perform_config f c) as (_ & -> & _).
  destruct c as [a t m | a |]; cbn [perform].
  - unfold is_duplicate.
    set (g := _cleanup_old_messages (incr_processed f) a t).
    assert (Hg : forall b, (length (deque_of (user_messages g) b)
                            <= max_messages_per_user f)%nat).
    { intros b'. etrans; [| apply (Hb b')].
      apply suffix_length, (cleanup_deques_suffix (incr_processed f)). }
    assert (Hm : max_messages_per_user g = max_messages_per_user f).
    { subst g. unfold _cleanup_old_messages. by destruct (pop_old _ _ _ _). }
    destruct (judge_cases g a t m)
      as [-> | [[e ->] | [-> | (text & _ & _ & _ & ->)]]]; cbn; try apply Hg.
    rewrite deque_of_insert. case_decide; [| apply Hg].
    rewrite Hm. apply length_deque_append, Hg.
  - unfold clear_user_cache. destruct (user_messages f !! a); [| apply Hb].
    cbn. rewrite deque_of_insert. case_decide; [cbn; lia | apply Hb].
  - cbn. rewrite deque_of_empty. cbn. lia.
Qed.

Lemma sum_list_with_bound {A} (g : A -> nat) (l : list A) (m : nat) :
  (forall x, g x <= m)%nat -> (sum_list_with g l <= length l * m)%nat.
Proof.
  intros Hg. induction l as [| x l IH]; cbn; [lia |].
  specialize (Hg x). lia.
Qed.

(** X4: after any sequence of calls on a filter built with the bound
    [m], no deque holds more than [m] entries, and [cached_messages] is at
    most [active_users] times [m]. *)
Theorem deques_bounded (w : Q) (m : nat) (th : Q) (cs : list call) :
  let f := run (init w m th) cs in
  (forall a, (length (deque_of (user_messages f) a) <= m)%nat) /\
  (cached_messages (get_stats f) <= active_users (get_stats f) * m)%nat.
Proof.
  intros f.
  assert (Hb : forall a, (length (deque_of (user_messages f) a) <= m)%nat).
  { assert (Hm : max_messages_per_user f = m)
      by (subst f; by destruct (run_config (init w m th) cs) as (_ & -> & _)).
    rewrite <- Hm.
    apply (reachable_invariant
             (fun f => forall a, (length (deque_of (user_messages f) a)
                                  <= max_messages_per_user f)%nat)).
    - intros. cbn. rewrite deque_of_empty. cbn. lia.
    - intros g c. apply perform_bounded.
    - by exists w, m, th, cs. }
  split; [done |]. cbn. rewrite cached_by_user.
  rewrite <- size_dom. apply sum_list_with_bound, Hb.
Qed.

Lemma perform_sound f c :
  (forall a e, e ∈ deque_of (user_messages f) a -> entry_sound e) ->
  forall a e, e ∈ deque_of (user_messages (perform f c)) a -> entry_sound e.
Proof.
  intros Hs b e. destruct c as [a t m | a |]; cbn [perform].
  - unfold is_duplicate.
    set (g := _cleanup_old_messages (incr_processed f) a t).
    assert (Hg : forall b e, e ∈ deque_of (user_messages g) b -> entry_sound e).
    { intros b' e' He'. apply (Hs b').
      eapply elem_of_suffix; [apply (cleanup_deques_suffix (incr_processed f)) | done]. }
    destruct (judge_cases g a t m)
      as [-> | [[ex ->] | [-> | (text & _ & Hn & _ & ->)]]]; cbn; try apply Hg.
    rewrite deque_of_insert. case_decide; [| apply Hg].
    intros [He | ->]%elem_of_deque_append; [by apply (Hg a) | by split].
  - unfold clear_user_cache. destruct (user_messages f !! a); [| apply Hs].
    cbn. rewrite deque_of_insert. case_decide; [by intros ?%elem_of_nil | apply Hs].
  - cbn. rewrite deque_of_empty. by intros ?%elem_of_nil.
Qed.

Lemma reachable_entries_sound (f : filter) :
  reachable f ->
  forall a e, e ∈ deque_of (user_messages f) a -> entry_sound e.
Proof.
  apply (reachable_invariant
           (fun f => forall a e, e ∈ deque_of (user_messages f) a -> entry_sound e)).
  - intros w m th a e. cbn. rewrite deque_of_empty. by intros ?%elem_of_nil.
  - apply perform_sound.
Qed.

(** X5: in every reachable state each retained entry has a text whose
    normal form is not empty, and carries the hash of that normal form. *)
Theorem retained_entries_sound (f : filter) :
  reachable f ->
  forall a e, e ∈ deque_of (user_messages f) a -> entry_sound e.
Proof. apply reachable_entries_sound. Qed.

End Invariants.

(** ** Repeats, expiry and clearing *)

Lemma deque_append_last {A} (maxlen : nat) (d : list A) (x : A) :
  (0 < maxlen)%nat -> x ∈ deque_append maxlen d x.
Proof.
  intros Hm. unfold deque_append. destruct (_ <? _)%nat eqn:E.
  - apply Nat.ltb_lt in E. rewrite length_app in E.
    destruct d as [| y d]; cbn in *; [lia |].
    apply elem_of_app. right. by left.
  - apply elem_of_app. right. by left.
Qed.

Lemma foldl_discard_elem (d : list entry) (mh : gset str) (h : str) :
  h ∈ foldl (fun mh e => mh ∖ {[msg_hash e]}) mh d <->
  h ∈ mh /\ forall e, e ∈ d -> msg_hash e <> h.
Proof.
  revert mh. induction d as [| e d IH]; intros mh; cbn [foldl].
  - split; [intros ?; split; [done | by intros ? ?%elem_of_nil] | by intros [? _]].
  - rewrite IH, elem_of_difference, elem_of_singleton. split.
    + intros [[Hin Hne] Hd]. split; [done |].
      intros e' [-> | He']%elem_of_cons; [congruence | by apply Hd].
    + intros [Hin Hd]. split; [split; [done |] |].
      * intros ->. by apply (Hd e); [left |].
      * intros e' He'. apply Hd. by right.
Qed.

Lemma pop_old_all_stale w t d mh :
  (forall e, e ∈ d -> Qgt_bool (t - timestamp e) w = true) ->
  pop_old w t d mh = ([], foldl (fun mh e => mh ∖ {[msg_hash e]}) mh d).
Proof.
  revert mh. induction d as [| e d IH]; intros mh Hs; cbn [pop_old foldl]; [done |].
  rewrite (Hs e) by (by left). apply IH. intros e' He'. apply Hs. by right.
Qed.

Section Repeats.
Context `{Ucd}.

Lemma cleanup_hash_kept f user_id t h :
  h ∈ message_hashes f ->
  (forall e, e ∈ deque_of (user_messages f) user_id -> msg_hash e = h ->
             Qgt_bool (t - timestamp e) (time_window f) = false) ->
  h ∈ message_hashes (_cleanup_old_messages f user_id t).
Proof.
  intros Hin Hfresh. unfold _cleanup_old_messages.
  pose proof (pop_old_keeps (time_window f) t _ _ h Hin Hfresh) as Hk.
  by destruct (pop_old _ _ _ _).
Qed.

(** An admitted text went through the last branch of [judge]. *)
Lemma judge_admitted f user_id t text :
  (judge f user_id t (PyStr text)).2 = Return false ->
  normalize_str text <> [] ->
  (hash_of (normalize_str text) ∉ message_hashes f) /\
  judge f user_id t (PyStr text)
  = (set_cache f
       (<[user_id := deque_append (max_messages_per_user f)
                       (deque_of (user_messages f) user_id)
                       (Entry t (hash_of (normalize_str text)) text)]>
          (user_messages f))
       ({[hash_of (normalize_str text)]} ∪ message_hashes f),
     Return false).
Proof.
  intros Hr Hn.
  destruct (decide (hash_of (normalize_str text) ∈ message_hashes f)) as [Hin | Hin].
  { by rewrite judge_exact in Hr. }
  destruct (similar_to_some f text (deque_of (user_messages f) user_id)) eqn:Es.
  { by rewrite judge_similar in Hr. }
  split; [done |]. by apply judge_new.
Qed.

(** X6: once a text has been admitted in a reachable state, the same
    text is reported as a duplicate on the next call, by any other user at
    any clock reading, and by the same user as long as the admitted entry is
    within the window. *)
Theorem admitted_text_blocked_next (f : filter) (user_id : Z) (t : Q)
    (text : str) (other : Z) (t' : Q) :
  reachable f ->
  (is_duplicate f user_id t (PyStr text)).2 = Return false ->
  normalize_str text <> [] ->
  (other = user_id -> (t' - t <= time_window f)%Q) ->
  (is_duplicate (is_duplicate f user_id t (PyStr text)).1 other t' (PyStr text)).2
  = Return true.
Proof.
  intros Hr Hadm Hn Hwin.
  assert (Hc : consistent (_cleanup_old_messages (incr_processed f) user_id t)).
  { apply cleanup_consistent. exact (reachable_consistent f Hr). }
  unfold is_duplicate at 2. unfold is_duplicate in Hadm.
  set (g := _cleanup_old_messages (incr_processed f) user_id t) in *.
  destruct (judge_admitted g user_id t text Hadm Hn) as [Hnew ->].
  cbn [fst]. set (h := hash_of (normalize_str text)) in *.
  assert (Hnone : forall b e, e ∈ deque_of (user_messages g) b -> msg_hash e <> h).
  { intros b e He Heq. apply Hnew. rewrite <- Heq. by apply (proj2 Hc b). }
  assert (Hw : time_window g = time_window f).
  { subst g. unfold _cleanup_old_messages. by destruct (pop_old _ _ _ _). }
  unfold is_duplicate. rewrite judge_exact; [done | done |].
  apply cleanup_hash_kept; cbn.
  - apply elem_of_union_l. by apply elem_of_singleton.
  - intros e. rewrite deque_of_insert. case_decide as Hu.
    + intros [He | ->]%elem_of_deque_append Heq; [by destruct (Hnone user_id e) |].
      cbn. rewrite Hw. unfold Qgt_bool.
      apply negb_false_iff, Qle_bool_iff, Hwin. done.
    + intros He Heq. by destruct (Hnone other e).
Qed.

(** X7: on a filter with a positive bound, a text that was admitted is
    admitted again by the same user once every entry of the user's deque,
    hence also the entry of that text, is older than the window. *)
Theorem expired_text_admitted_again (f : filter) (user_id : Z) (t : Q)
    (text : str) (t' : Q) :
  (0 < max_messages_per_user f)%nat ->
  (is_duplicate f user_id t (PyStr text)).2 = Return false ->
  normalize_str text <> [] ->
  (forall e, e ∈ deque_of (user_messages (is_duplicate f user_id t (PyStr text)).1) user_id ->
             (time_window f < t' - timestamp e)%Q) ->
  (is_duplicate (is_duplicate f user_id t (PyStr text)).1 user_id t' (PyStr text)).2
  = Return false.
Proof.
  intros Hm Hadm Hn.
  unfold is_duplicate in Hadm.
  assert (Hw : time_window (_cleanup_old_messages (incr_processed f) user_id t)
               = time_window f).
  { unfold _cleanup_old_messages. by destruct (pop_old _ _ _ _). }
  assert (Hmx : max_messages_per_user (_cleanup_old_messages (incr_processed f) user_id t)
                = max_messages_per_user f).
  { unfold _cleanup_old_messages. by destruct (pop_old _ _ _ _). }
  destruct (judge_admitted _ user_id t text Hadm Hn) as [Hnew E].
  assert (E1 : is_duplicate f user_id t (PyStr text)
               = judge (_cleanup_old_messages (incr_processed f) user_id t)
                   user_id t (PyStr text)) by done.
  rewrite E in E1. rewrite E1. clear E E1 Hadm. cbn [fst].
  set (g := _cleanup_old_messages (incr_processed f) user_id t) in *.
  set (h := hash_of (normalize_str text)) in *.
  set (d := deque_append (max_messages_per_user g) (deque_of (user_messages g) user_id)
              (Entry t h text)).
  cbn [user_messages set_cache]. intros Hstale.
  assert (Hd : forall e, e ∈ d -> (time_window f < t' - timestamp e)%Q).
  { intros e He. apply Hstale. by rewrite deque_of_insert_eq. }
  unfold is_duplicate, _cleanup_old_messages.
  cbn [incr_processed set_cache user_messages message_hashes time_window].
  rewrite deque_of_insert_eq.
  rewrite pop_old_all_stale.
  2:{ intros e He. unfold Qgt_bool. apply negb_true_iff.
      destruct (Qle_bool (t' - timestamp e) (time_window g)) eqn:El; [| done].
      apply Qle_bool_iff in El. specialize (Hd e He).
      rewrite Hw in El. exfalso. by apply (Qlt_not_le _ _ Hd). }
  rewrite judge_new; [done | done | |].
  - cbn. rewrite foldl_discard_elem. intros [_ Hall].
    apply (Hall (Entry t h text)); [| done].
    subst d. apply deque_append_last. by rewrite Hmx.
  - cbn. by rewrite deque_of_insert_eq.
Qed.

(** X8: in a reachable state, after [clear_user_cache] for a user each
    text the user's deque held is admitted when that user sends it
    again. *)
Theorem cleared_text_admitted_again (f : filter) (user_id : Z) (e : entry) (t : Q) :
  reachable f ->
  e ∈ deque_of (user_messages f) user_id ->
  (is_duplicate (clear_user_cache f user_id) user_id t (PyStr (msg_text e))).2
  = Return false.
Proof.
  intros Hr He.
  destruct (reachable_entries_sound f Hr user_id e He) as [Hn Hh].
  apply elem_of_deque_of in He as (d & Hd & He).
  unfold clear_user_cache. rewrite Hd.
  unfold is_duplicate. rewrite cleanup_no_deque by (cbn; by rewrite deque_of_insert_eq).
  rewrite judge_new; [done | done | |].
  - cbn. rewrite foldl_discard_elem. intros [_ Hall]. by apply (Hall e).
  - cbn. by rewrite deque_of_insert_eq.
Qed.

(** X9: [clear_user_cache] empties the deque of its user and leaves the
    deques of the others, the users the dictionary holds and the counters
    as they are; doing it twice is doing it once. *)
Theorem clear_user_cache_scope (f : filter) (user_id : Z) :
  let g := clear_user_cache f user_id in
  deque_of (user_messages g) user_id = [] /\
  (forall other, other <> user_id ->
     deque_of (user_messages g) other = deque_of (user_messages f) other) /\
  dom (user_messages g) = dom (user_messages f) /\
  message_hashes g ⊆ message_hashes f /\
  (blocked_count g, total_processed g) = (blocked_count f, total_processed f) /\
  clear_user_cache g user_id = g.
Proof.
  cbn. unfold clear_user_cache.
  destruct (user_messages f !! user_id) as [d |] eqn:Ed.
  - cbn. rewrite lookup_insert_eq. cbn. rewrite insert_insert_eq.
    repeat split.
    + by rewrite deque_of_insert_eq.
    + intros other Hne. by rewrite deque_of_insert_ne.
    + rewrite dom_insert_L. apply subseteq_union_1_L, singleton_subseteq_l.
      apply elem_of_dom. eauto.
    + intros h. rewrite foldl_discard_elem. by intros [? _].
  - rewrite Ed. repeat split; try done.
    unfold deque_of. by rewrite Ed.
Qed.

End Repeats.

(** ** Hashes without an entry *)

Section Orphans.
Context `{Ucd}.

Lemma carried_suffix um um' h :
  (forall a, deque_of um' a `suffix_of` deque_of um a) ->
  carried um' h -> carried um h.
Proof.
  intros Hs (a & e & He & Hh). exists a, e. split; [| done].
  eapply elem_of_suffix; [apply Hs | done].
Qed.

Lemma cleanup_orphaned f user_id t h :
  orphaned f h -> orphaned (_cleanup_old_messages f user_id t) h.
Proof.
  intros [Hin Hnc]. split.
  - apply cleanup_hash_kept; [done |].
    intros e He Hh. destruct Hnc. by exists user_id, e.
  - intros Hc. apply Hnc. revert Hc. apply carried_suffix.
    intros a. apply cleanup_deques_suffix.
Qed.

Lemma judge_orphaned f user_id t m h :
  orphaned f h -> orphaned (judge f user_id t m).1 h.
Proof.
  intros [Hin Hnc].
  destruct (judge_cases f user_id t m)
    as [-> | [[ex ->] | [-> | (text & _ & _ & Hnew & ->)]]]; try done.
  cbn [fst]. split; cbn.
  - by apply elem_of_union_r.
  - intros (a & e & He & Hh). rewrite deque_of_insert in He.
    case_decide as Ha.
    + apply elem_of_deque_append in He as [He | ->].
      * apply Hnc. by exists user_id, e.
      * cbn in Hh. apply Hnew. by rewrite Hh.
    + apply Hnc. by exists a, e.
Qed.

Lemma clear_user_cache_orphaned f user_id h :
  orphaned f h -> orphaned (clear_user_cache f user_id) h.
Proof.
  intros [Hin Hnc]. unfold clear_user_cache.
  destruct (user_messages f !! user_id) as [d |] eqn:Ed; [| done].
  split; cbn.
  - apply foldl_discard_elem. split; [done |].
    intros e He Hh. apply Hnc. exists user_id, e. split; [| done].
    apply elem_of_deque_of. by exists d.
  - intros (a & e & He & Hh). rewrite deque_of_insert in He.
    case_decide; [by apply elem_of_nil in He |].
    apply Hnc. by exists a, e.
Qed.

(** X10: a hash that is in the set of hashes while no retained entry
    carries it stays so under every sequence of [is_duplicate] and
    [clear_user_cache] calls, and every text with that hash is reported as
    a duplicate, for every user and at every clock reading; only
    [clear_all_cache] removes it. *)
Theorem orphaned_hash_persists (f : filter) (h : str) (cs : list call) :
  orphaned f h ->
  ClearAllCache ∉ cs ->
  orphaned (run f cs) h /\
  forall user_id t text,
    normalize_str text <> [] ->
    hash_of (normalize_str text) = h ->
    (is_duplicate (run f cs) user_id t (PyStr text)).2 = Return true.
Proof.
  intros Ho Hcs.
  assert (Hrun : orphaned (run f cs) h).
  { revert f Ho. induction cs as [| c cs IH]; intros f Ho; [done |].
    cbn [run foldl]. fold (run (perform f c) cs).
    apply IH; [by intros ?; apply Hcs; right |].
    destruct c as [a t m | a |]; cbn [perform].
    - unfold is_duplicate. apply judge_orphaned.
      by apply (cleanup_orphaned (incr_processed f)).
    - by apply clear_user_cache_orphaned.
    - destruct Hcs. by left. }
  split; [done |].
  intros user_id t text Hn Hh. unfold is_duplicate.
  rewrite judge_exact; [done | done |]. rewrite Hh.
  by apply (cleanup_orphaned (incr_processed (run f cs))).
Qed.

End Orphans.

(** ** The score *)

Lemma Qdiv_nat_range (i n : nat) :
  (0 < n)%nat -> (i <= n)%nat ->
  (0 <= inject_Z (Z.of_nat i) / inject_Z (Z.of_nat n) <= 1)%Q.
Proof.
  intros Hn Hi.
  assert (Hpos : (0 < inject_Z (Z.of_nat n))%Q).
  { change 0%Q with (inject_Z 0). rewrite <- Zlt_Qlt. lia. }
  split.
  - apply Qle_shift_div_l; [done |]. rewrite Qmult_0_l.
    change 0%Q with (inject_Z 0). rewrite <- Zle_Qle. lia.
  - apply Qle_shift_div_r; [done |]. rewrite Qmult_1_l.
    rewrite <- Zle_Qle. lia.
Qed.

Section Score.
Context `{Ucd}.

(** X11: the score is between 0 and 1. *)
Theorem similarity_range (text1 text2 : str) :
  (0 <= _calculate_similarity text1 text2 <= 1)%Q.
Proof.
  unfold _calculate_similarity.
  destruct text1 as [| c1 r1]; [done |].
  destruct text2 as [| c2 r2]; [done |].
  case_bool_decide; [done |].
  destruct (_ || _); [done |].
  destruct (0 <? _)%nat eqn:E; [| done].
  apply Nat.ltb_lt in E. apply Qdiv_nat_range; [done |].
  apply subseteq_size.
  etrans; [apply intersection_subseteq_l | apply union_subseteq_l].
Qed.

(** X12: the score does not depend on the order of the two texts. *)
Theorem similarity_symmetric (text1 text2 : str) :
  _calculate_similarity text1 text2 = _calculate_similarity text2 text1.
Proof.
  unfold _calculate_similarity.
  destruct text1 as [| c1 r1], text2 as [| c2 r2]; try done.
  set (n1 := normalize_str (c1 :: r1)). set (n2 := normalize_str (c2 :: r2)).
  rewrite (bool_decide_ext (n1 = n2) (n2 = n1)) by done.
  case_bool_decide; [done |].
  rewrite (orb_comm (bool_decide (word_set n1 = ∅))).
  destruct (_ || _); [done |].
  assert (Ei : word_set n1 ∩ word_set n2 = word_set n2 ∩ word_set n1)
    by apply intersection_comm_L.
  assert (Eu : word_set n1 ∪ word_set n2 = word_set n2 ∪ word_set n1)
    by apply union_comm_L.
  by rewrite Ei, Eu.
Qed.

(** X13: two non-empty texts whose normal forms have the same non-empty
    set of words score 1, whatever the order and the number of occurrences
    of the words. *)
Theorem similarity_same_words (text1 text2 : str) :
  text1 <> [] -> text2 <> [] ->
  word_set (normalize_str text1) = word_set (normalize_str text2) ->
  word_set (normalize_str text1) <> ∅ ->
  (_calculate_similarity text1 text2 == 1)%Q.
Proof.
  intros H1 H2 Hw Hne. unfold _calculate_similarity.
  destruct text1 as [| c1 r1]; [done |].
  destruct text2 as [| c2 r2]; [done |].
  case_bool_decide; [done |].
  rewrite <- Hw.
  rewrite (bool_decide_eq_false_2 _ Hne). cbn [orb].
  set (W := word_set (normalize_str (c1 :: r1))) in *.
  assert (Ei : W ∩ W = W) by apply (idemp_L (∩)).
  assert (Eu : W ∪ W = W) by apply (idemp_L (∪)).
  rewrite Ei, Eu. subst W.
  assert (Hs : (0 < size (word_set (normalize_str (c1 :: r1))))%nat).
  { apply Nat.neq_0_lt_0. intros Hz. by apply size_empty_inv, leibniz_equiv in Hz. }
  apply Nat.ltb_lt in Hs as Hb. rewrite Hb.
  unfold Qdiv. apply Qmult_inv_r.
  change 0%Q with (inject_Z 0). rewrite inject_Z_injective. lia.
Qed.

End Score.

(** ** Clock readings that never decrease *)

Lemma ascending_suffix (k d : list entry) : k `suffix_of` d -> ascending d -> ascending k.
Proof.
  intros [p ->]. induction p as [| e p IH]; [done |].
  intros [_ Ha]. by apply IH.
Qed.

Lemma ascending_snoc (d : list entry) (x : entry) :
  ascending d -> Forall (fun e => (timestamp e <= timestamp x)%Q) d -> ascending (d ++ [x]).
Proof.
  induction d as [| e d IH]; intros Ha Hb; cbn; [by split |].
  destruct Ha as [Hf Ha]. apply Forall_cons in Hb as [He Hb]. split.
  - apply Forall_app. split; [done |]. by apply Forall_singleton.
  - by apply IH.
Qed.

Lemma ascending_tail (d : list entry) : ascending d -> ascending (tail d).
Proof. destruct d; [done |]. by intros [_ ?]. Qed.

Lemma ascending_deque_append (maxlen : nat) (d : list entry) (x : entry) :
  ascending d -> Forall (fun e => (timestamp e <= timestamp x)%Q) d ->
  ascending (deque_append maxlen d x).
Proof.
  intros Ha Hb. unfold deque_append.
  destruct (_ <? _)%nat; [apply ascending_tail |]; by apply ascending_snoc.
Qed.

(** In an ascending deque the clean-up loop leaves no stale entry. *)
Lemma pop_old_fresh w t d mh :
  ascending d ->
  forall e, e ∈ (pop_old w t d mh).1 -> (t - timestamp e <= w)%Q.
Proof.
  revert mh. induction d as [| e0 d IH]; intros mh Ha e; cbn [pop_old].
  - by intros ?%elem_of_nil.
  - destruct Ha as [Hf Ha]. destruct (Qgt_bool _ _) eqn:Es.
    + by apply IH.
    + cbn [fst]. unfold Qgt_bool in Es. apply negb_false_iff, Qle_bool_iff in Es.
      intros [-> | He]%elem_of_cons; [done |].
      rewrite Forall_forall in Hf. specialize (Hf e He). lra.
Qed.

Section Clock.
Context `{Ucd}.

Lemma Forall_suffix {A} (P : A -> Prop) (k d : list A) :
  k `suffix_of` d -> Forall P d -> Forall P k.
Proof. intros [p ->] Hf. by apply Forall_app in Hf as [_ ?]. Qed.

Lemma cleanup_ordered f user_id t tl :
  ordered f tl -> ordered (_cleanup_old_messages f user_id t) tl.
Proof.
  intros Ho a. destruct (Ho a) as [Ha Hb].
  pose proof (cleanup_deques_suffix f user_id t a) as Hs. split.
  - by eapply ascending_suffix.
  - by eapply Forall_suffix.
Qed.

Lemma ordered_later f tl t : (tl <= t)%Q -> ordered f tl -> ordered f t.
Proof.
  intros Hle Ho a. destruct (Ho a) as [Ha Hb]. split; [done |].
  eapply Forall_impl; [exact Hb |]. intros e He. cbn in He. lra.
Qed.

Lemma judge_ordered f user_id t m :
  ordered f t -> ordered (judge f user_id t m).1 t.
Proof.
  intros Ho.
  destruct (judge_cases f user_id t m)
    as [-> | [[ex ->] | [-> | (text & _ & _ & _ & ->)]]]; try done.
  intros a. cbn. rewrite deque_of_insert. case_decide; [| apply Ho].
  destruct (Ho user_id) as [Ha Hb]. split.
  - by apply ascending_deque_append.
  - apply Forall_forall. intros e [He | ->]%elem_of_deque_append.
    + rewrite Forall_forall in Hb. by apply Hb.
    + cbn. apply Qle_refl.
Qed.

Lemma perform_ordered f c tl :
  ordered f tl -> clock_monotone tl [c] ->
  ordered (perform f c) (last_clock tl [c]).
Proof.
  intros Ho Hc. destruct c as [a t m | a |]; cbn in *.
  - destruct Hc as [Hle _]. unfold is_duplicate. apply judge_ordered.
    apply cleanup_ordered. by apply (ordered_later (incr_processed f) tl).
  - unfold clear_user_cache.
    destruct (user_messages f !! a); [| done].
    intros b. cbn. rewrite deque_of_insert. case_decide; [by split | apply Ho].
  - intros b. cbn. rewrite deque_of_empty. by split.
Qed.

Lemma run_ordered cs f tl :
  ordered f tl -> clock_monotone tl cs ->
  ordered (run f cs) (last_clock tl cs).
Proof.
  revert f tl. induction cs as [| c cs IH]; intros f tl Ho Hc; [done |].
  cbn [run foldl last_clock]. fold (run (perform f c) cs).
  change (foldl _ ?t cs) with (last_clock t cs).
  apply IH.
  - apply (perform_ordered f c tl Ho). destruct c; cbn in *; [by destruct Hc | done | done].
  - destruct c; cbn in *; [by destruct Hc | done | done].
Qed.

Lemma clock_monotone_snoc t0 cs a t m :
  clock_monotone t0 (cs ++ [IsDuplicate a t m]) ->
  clock_monotone t0 cs /\ (last_clock t0 cs <= t)%Q.
Proof.
  revert t0. induction cs as [| c cs IH]; intros t0; cbn.
  - by intros [? _].
  - destruct c as [b t1 m1 | b |]; cbn.
    + intros [Hle Hc]. destruct (IH t1 Hc) as [? ?]. by repeat split.
    + apply IH.
    + apply IH.
Qed.

(** X14: if the window is not negative and the clock readings of the
    calls never decrease, then after a call of [is_duplicate] at the clock
    reading [t] every entry in the deque of the calling user is at most one
    window older than [t]: the clean-up, which only looks at the leftmost
    entry, has removed every stale entry. *)
Theorem no_stale_entry_after_call (w : Q) (m : nat) (th : Q) (t0 : Q)
    (cs : list call) (user_id : Z) (t : Q) (v : pyval) :
  (0 <= w)%Q ->
  clock_monotone t0 (cs ++ [IsDuplicate user_id t v]) ->
  forall e,
    e ∈ deque_of (user_messages (run (init w m th) (cs ++ [IsDuplicate user_id t v])))
                 user_id ->
    (t - timestamp e <= w)%Q.
Proof.
  intros Hw Hc e.
  destruct (clock_monotone_snoc _ _ _ _ _ Hc) as [Hcs Hle].
  unfold run. rewrite foldl_app. cbn [foldl perform].
  fold (run (init w m th) cs). set (f := run (init w m th) cs).
  assert (Ho : ordered f (last_clock t0 cs)).
  { apply run_ordered; [| done]. intros a. cbn. rewrite deque_of_empty. by split. }
  assert (Hwf : time_window f = w)
    by (subst f; by destruct (run_config (init w m th) cs) as (-> & _)).
  unfold is_duplicate.
  set (g := _cleanup_old_messages (incr_processed f) user_id t).
  assert (Hg : forall e, e ∈ deque_of (user_messages g) user_id ->
                         (t - timestamp e <= w)%Q).
  { intros e' He'. subst g. unfold _cleanup_old_messages in He'.
    pose proof (pop_old_fresh (time_window (incr_processed f)) t
                  (deque_of (user_messages (incr_processed f)) user_id)
                  (message_hashes (incr_processed f))
                  (proj1 (Ho user_id)) e') as Hf.
    destruct (pop_old _ _ _ _) as [d' mh']. cbn in He', Hf.
    rewrite deque_of_insert_eq in He'. rewrite <- Hwf. by apply Hf. }
  destruct (judge_cases g user_id t v)
    as [-> | [[ex ->] | [-> | (text & _ & _ & _ & ->)]]]; try apply Hg.
  cbn. rewrite deque_of_insert_eq.
  intros [He | ->]%elem_of_deque_append; [by apply Hg |].
  cbn. lra.
Qed.

End Clock.

(** ** Recent messages, positive limits *)

(** X15: for a positive limit [get_user_recent_messages] returns the
    rightmost entries of the user's deque, in the order of the deque, as
    many as the limit allows: all of them if the deque holds no more than
    [limit] entries, the last [limit] otherwise; for a user without a deque
    it returns the empty list. *)
Theorem recent_messages_positive_limit (f : filter) (user_id : Z) (limit : Z) :
  0 < limit ->
  let d := deque_of (user_messages f) user_id in
  let r := get_user_recent_messages f user_id limit in
  r `suffix_of` d /\
  length r = Nat.min (Z.to_nat limit) (length d) /\
  (user_messages f !! user_id = None -> r = []).
Proof.
  intros Hpos d r.
  destruct (get_user_recent_messages_positive f user_id limit Hpos) as [Hr _].
  fold d in Hr. fold r in Hr. rewrite Hr. repeat split.
  - apply suffix_drop.
  - rewrite length_drop. lia.
  - intros Hnone. subst d. unfold deque_of. rewrite Hnone. cbn. by rewrite drop_nil.
Qed.

(** ** The handler of private messages *)

Section HandlerProperties.
Context `{Ucd}.

Lemma handle_processing_users s text user_id en bl now :
  let r := handle_private_message s text user_id en bl now in
  processing_users s ⊆ processing_users r.1 /\
  (r.2 = Processing -> user_id ∉ processing_users s) /\
  (r.2 = DuplicateMessage ->
     (user_id ∉ processing_users s) /\ (user_id ∈ processing_users r.1)).
Proof.
  cbn. unfold handle_private_message, is_duplicate_message.
  destruct (negb (truthy text)); [done |].
  destruct (negb en); [done |].
  destruct bl; [done |].
  case_bool_decide as Hin; [done |].
  cbn [processing_users duplicate_filter].
  destruct (is_duplicate _ _ _ _) as [f [[|] | e]]; cbn.
  - split; [apply union_subseteq_r |]. split; [done |]. intros _. split; [done |].
    apply elem_of_union_l. by apply elem_of_singleton.
  - split; [apply union_subseteq_r |]. by split.
  - split; [apply union_subseteq_r |]. by split.
Qed.

(** The users inside the [try] block are in [processing_users]. *)
Lemma react_in_try x ev :
  in_try x ⊆ processing_users (the_bot x) ->
  in_try (react x ev).1 ⊆ processing_users (the_bot (react x ev).1).
Proof.
  intros Hsub. destruct ev as [u text en bl now | u | u]; cbn [react].
  - destruct (handle_processing_users (the_bot x) text u en bl now) as (Hmono & _ & _).
    assert (Hu : (handle_private_message (the_bot x) text u en bl now).2 = Processing ->
                 u ∈ processing_users (handle_private_message (the_bot x) text u en bl now).1).
    { unfold handle_private_message, is_duplicate_message.
      destruct (negb (truthy text)); [done |].
      destruct (negb en); [done |].
      destruct bl; [done |].
      case_bool_decide; [done |].
      cbn [processing_users duplicate_filter].
      destruct (is_duplicate _ _ _ _) as [f [[|] | e]]; cbn; try done.
      intros _. apply elem_of_union_l. by apply elem_of_singleton. }
    destruct (handle_private_message _ _ _ _ _ _) as [s v]. cbn in *.
    destruct v; try (by etrans).
    apply union_least; [by apply singleton_subseteq_l, Hu | by etrans].
  - case_bool_decide; cbn; [| done].
    intros v [Hv Hne]%elem_of_difference. apply elem_of_difference. split; [| done].
    by apply Hsub.
  - done.
Qed.

Lemma play_in_try x evs :
  in_try x ⊆ processing_users (the_bot x) ->
  in_try (play x evs) ⊆ processing_users (the_bot (play x evs)).
Proof.
  revert x. induction evs as [| ev evs IH]; intros x Hsub; [done |].
  cbn [play foldl]. apply IH. by apply react_in_try.
Qed.

Lemma react_stuck x ev user_id : stuck x user_id -> stuck (react x ev).1 user_id.
Proof.
  intros [Hin Hout]. destruct ev as [u text en bl now | u | u]; cbn [react].
  - destruct (handle_processing_users (the_bot x) text u en bl now) as (Hmono & Hp & _).
    destruct (handle_private_message _ _ _ _ _ _) as [s v]. cbn in *.
    split; [by apply Hmono |].
    destruct v; try done.
    intros [->%elem_of_singleton | ?]%elem_of_union; [by apply Hp | done].
  - case_bool_decide as Hu; cbn; [| done]. split.
    + apply elem_of_difference. split; [done |].
      rewrite elem_of_singleton. by intros ->.
    + by intros [? _]%elem_of_difference.
  - done.
Qed.

Lemma play_stuck x evs user_id : stuck x user_id -> stuck (play x evs) user_id.
Proof.
  revert x. induction evs as [| ev evs IH]; intros x Hs; [done |].
  cbn [play foldl]. apply IH. by apply react_stuck.
Qed.

(** X16: once [handle_private_message] has left with a duplicate for a
    user, the user stays in [processing_users], whatever happens next, the
    handler leaving before its [try] block and so never reaching the
    [finally] clause that removes the user; every later message of that
    user that has a text, with the bot enabled and the user not blocked, is
    skipped as already being processed, and the bot is left as it was. *)
Theorem duplicate_locks_user_out (evs1 : list event) (user_id : Z)
    (text : pyval) (en bl : bool) (now : Q) (evs2 : list event)
    (text' : pyval) (now' : Q) :
  let x1 := play world_start evs1 in
  (react x1 (Message user_id text en bl now)).2 = Some DuplicateMessage ->
  truthy text' = true ->
  let x2 := play (react x1 (Message user_id text en bl now)).1 evs2 in
  react x2 (Message user_id text' true false now') = (x2, Some AlreadyProcessing).
Proof.
  intros x1 Hdup Htext x2.
  assert (Hsub : in_try x1 ⊆ processing_users (the_bot x1)).
  { subst x1. by apply play_in_try. }
  assert (Hstuck : stuck x2 user_id).
  { subst x2. apply play_stuck. cbn [react] in *.
    destruct (handle_processing_users (the_bot x1) text user_id en bl now)
      as (_ & _ & Hd).
    destruct (handle_private_message _ _ _ _ _ _) as [s v]. cbn in *.
    injection Hdup as ->. destruct (Hd eq_refl) as [Hnot Hin].
    split; [done |]. intros Hi. by apply Hnot, Hsub. }
  destruct Hstuck as [Hin _].
  cbn [react]. unfold handle_private_message. rewrite Htext. cbn [negb].
  rewrite bool_decide_eq_true_2 by done. by destruct x2.
Qed.

End HandlerProperties.

(** ** The alphabet of the normal form *)

Lemma split_from_no_space (word s : str) :
  Forall (fun c => isspace c = false) word ->
  forall w, w ∈ split_from word s -> Forall (fun c => isspace c = false) w.
Proof.
  revert word. induction s as [| c r IH]; intros word Hw w; cbn [split_from].
  - destruct word; [by intros ?%elem_of_nil |].
    by intros ->%list_elem_of_singleton.
  - destruct (isspace c) eqn:Ec.
    + destruct word as [| c0 word'].
      * by apply IH.
      * intros [-> | Hin]%elem_of_cons; [done |]. by apply (IH []).
    + apply IH. apply Forall_app. split; [done |]. by apply Forall_singleton.
Qed.

Lemma elem_of_join (ws : list str) (c : Z) :
  c ∈ join ws -> c = 0x20 \/ exists w, w ∈ ws /\ c ∈ w.
Proof.
  induction ws as [| w ws IH]; cbn [join]; [by intros ?%elem_of_nil |].
  destruct ws as [| w' ws'].
  - intros Hc. right. exists w. split; [by left | done].
  - intros [Hc | [-> | Hc]%elem_of_cons]%elem_of_app.
    + right. exists w. split; [by left | done].
    + by left.
    + destruct (IH Hc) as [-> | (w0 & Hw0 & Hc0)]; [by left |].
      right. exists w0. split; [by right | done].
Qed.

(** X17: the normal form of a text is made of word characters and of the
    space U+0020 only; every other white space and every other character
    has been replaced or removed. *)
Theorem normal_form_alphabet `{Ucd} (text : str) (c : Z) :
  c ∈ normalize_str text -> isword c = true \/ c = 0x20.
Proof.
  unfold normalize_str. destruct text as [| c0 r]; [by intros ?%elem_of_nil |].
  unfold strip_punctuation. intros Hc%list_elem_of_In.
  apply filter_In in Hc as [Hc%list_elem_of_In Hk].
  destruct (elem_of_join _ _ Hc) as [-> | (w & Hw & Hcw)]; [by right |].
  left. unfold split in Hw.
  pose proof (split_from_no_space [] _ (Forall_nil_2 _) w Hw) as Hns.
  rewrite Forall_forall in Hns. rewrite (Hns c Hcw) in Hk.
  by rewrite orb_false_r in Hk.
Qed.

Lemma normal_form_alphabet_witness :
  32 ∈ normalize_str (u "Hello,  World!") /\
  (isword 32 = true \/ 32 = 0x20).
Proof.
  assert (Hin : 32 ∈ normalize_str (u "Hello,  World!")).
  { apply (bool_decide_unpack _). vm_compute. exact I. }
  split; [exact Hin |].
  exact (normal_form_alphabet (u "Hello,  World!") 32 Hin).
Defined.

(** ** Witnesses *)

Lemma is_duplicate_other_deques_witness :
  let f := run (init 300 10 (4 # 5)) [IsDuplicate 2 0 (PyStr (u "hello"))] in
  2 <> 1 /\
  deque_of (user_messages (is_duplicate f 1 1 (PyStr (u "world"))).1) 2
  = deque_of (user_messages f) 2.
Proof.
  intros f. assert (Hne : 2 <> 1) by lia.
  split; [exact Hne |].
  exact (is_duplicate_other_deques f 1 1 (PyStr (u "world")) 2 Hne).
Defined.

Lemma blocked_at_most_processed_witness :
  let f := run (init 300 10 (4 # 5))
             [IsDuplicate 1 0 (PyStr (u "hello")); IsDuplicate 1 1 (PyStr (u "hello"))] in
  reachable f /\ (blocked_count f <= total_processed f)%nat.
Proof.
  intros f. assert (Hr : reachable f) by (eexists _, _, _, _; reflexivity).
  split; [exact Hr |]. exact (blocked_at_most_processed f Hr).
Defined.

Lemma retained_entries_sound_witness :
  let f := run (init 300 10 (4 # 5))
             [IsDuplicate 1 0 (PyStr (u "hello")); IsDuplicate 2 1 (PyStr (u "world"))] in
  reachable f /\
  forall a e, e ∈ deque_of (user_messages f) a -> entry_sound e.
Proof.
  intros f. assert (Hr : reachable f) by (eexists _, _, _, _; reflexivity).
  split; [exact Hr |]. exact (retained_entries_sound f Hr).
Defined.

Lemma admitted_text_blocked_next_witness :
  let f := run (init 60 5 (4 # 5)) [IsDuplicate 2 0 (PyStr (u "hello"))] in
  (is_duplicate (is_duplicate f 1 10 (PyStr (u "Good day"))).1 1 70 (PyStr (u "Good day"))).2
  = Return true /\
  (is_duplicate (is_duplicate f 1 10 (PyStr (u "Good day"))).1 2 1000 (PyStr (u "Good day"))).2
  = Return true.
Proof.
  intros f.
  assert (Hr : reachable f) by (eexists _, _, _, _; reflexivity).
  assert (Ha : (is_duplicate f 1 10 (PyStr (u "Good day"))).2 = Return false)
    by (vm_compute; reflexivity).
  assert (Hn : normalize_str (u "Good day") <> [])
    by (intros Hx; vm_compute in Hx; discriminate Hx).
  split.
  - refine (admitted_text_blocked_next f 1 10 (u "Good day") 1 70 Hr Ha Hn _).
    intros _. vm_compute. discriminate.
  - refine (admitted_text_blocked_next f 1 10 (u "Good day") 2 1000 Hr Ha Hn _).
    intros Hx. lia.
Defined.

Lemma expired_text_admitted_again_witness :
  let f := init 60 5 (4 # 5) in
  (is_duplicate (is_duplicate f 1 0 (PyStr (u "hello"))).1 1 61 (PyStr (u "hello"))).2
  = Return false.
Proof.
  intros f.
  refine (expired_text_admitted_again f 1 0 (u "hello") 61 _ _ _ _).
  - cbn. lia.
  - vm_compute. reflexivity.
  - intros Hx. vm_compute in Hx. discriminate Hx.
  - intros e.
    replace (deque_of _ 1) with
      [Entry 0 (hash_of (normalize_str (u "hello"))) (u "hello")]
      by (vm_compute; reflexivity).
    intros ->%list_elem_of_singleton. vm_compute. reflexivity.
Defined.

Lemma cleared_text_admitted_again_witness :
  let f := run (init 300 10 (4 # 5)) [IsDuplicate 1 0 (PyStr (u "hello"))] in
  let e := Entry 0 (hash_of (normalize_str (u "hello"))) (u "hello") in
  e ∈ deque_of (user_messages f) 1 /\
  (is_duplicate (clear_user_cache f 1) 1 1 (PyStr (u "hello"))).2 = Return false.
Proof.
  intros f e.
  assert (Hr : reachable f) by (eexists _, _, _, _; reflexivity).
  assert (He : e ∈ deque_of (user_messages f) 1).
  { replace (deque_of (user_messages f) 1) with [e] by (vm_compute; reflexivity).
    by left. }
  split; [exact He |].
  exact (cleared_text_admitted_again f 1 e 1 Hr He).
Defined.

Lemma orphaned_hash_persists_witness :
  let f := run (init 60 1 (4 # 5))
             [IsDuplicate 1 0 (PyStr (u "alpha")); IsDuplicate 1 1 (PyStr (u "beta"))] in
  let cs := [IsDuplicate 2 500 (PyStr (u "gamma")); ClearUserCache 1] in
  orphaned f (hash_of (normalize_str (u "alpha"))) /\
  orphaned (run f cs) (hash_of (normalize_str (u "alpha"))) /\
  (is_duplicate (run f cs) 3 1000 (PyStr (u "Alpha!"))).2 = Return true.
Proof.
  intros f cs.
  assert (Ho : orphaned f (hash_of (normalize_str (u "alpha")))).
  { split.
    - apply (bool_decide_unpack _). vm_compute. exact I.
    - rewrite carried_items. apply (bool_decide_unpack _). vm_compute. exact I. }
  assert (Hcs : ClearAllCache ∉ cs).
  { intros Hin. apply elem_of_cons in Hin as [Hin | Hin]; [discriminate Hin |].
    apply elem_of_cons in Hin as [Hin | Hin]; [discriminate Hin |].
    by apply elem_of_nil in Hin. }
  split; [exact Ho |].
  destruct (orphaned_hash_persists f _ cs Ho Hcs) as [Hrun Hblock].
  split; [exact Hrun |].
  apply Hblock.
  - intros Hx. vm_compute in Hx. discriminate Hx.
  - vm_compute. reflexivity.
Defined.

Lemma similarity_same_words_witness :
  (_calculate_similarity (u "show the warehouse") (u "Warehouse: show the, the WAREHOUSE!") == 1)%Q.
Proof.
  refine (similarity_same_words (u "show the warehouse")
            (u "Warehouse: show the, the WAREHOUSE!") _ _ _ _).
  - intros Hx. vm_compute in Hx. discriminate Hx.
  - intros Hx. vm_compute in Hx. discriminate Hx.
  - vm_compute. reflexivity.
  - intros Hx. apply (f_equal size) in Hx. vm_compute in Hx. discriminate Hx.
Defined.

Lemma no_stale_entry_after_call_witness :
  let cs := [IsDuplicate 1 0 (PyStr (u "alpha")); IsDuplicate 1 50 (PyStr (u "beta"))] in
  (0 <= 60)%Q /\
  forall e,
    e ∈ deque_of (user_messages (run (init 60 5 (4 # 5))
                                   (cs ++ [IsDuplicate 1 100 (PyStr (u "gamma"))]))) 1 ->
    (100 - timestamp e <= 60)%Q.
Proof.
  intros cs.
  assert (Hw : (0 <= 60)%Q) by (vm_compute; discriminate).
  split; [exact Hw |].
  refine (no_stale_entry_after_call 60 5 (4 # 5) 0 cs 1 100 (PyStr (u "gamma")) Hw _).
  cbn. repeat split; vm_compute; discriminate.
Defined.

Lemma recent_messages_positive_limit_witness :
  let f := run (init 300 10 (4 # 5))
             [IsDuplicate 1 0 (PyStr (u "alpha")); IsDuplicate 1 1 (PyStr (u "beta"));
              IsDuplicate 1 2 (PyStr (u "gamma"))] in
  0 < 2 /\
  msg_text <$> get_user_recent_messages f 1 2 = [u "beta"; u "gamma"] /\
  get_user_recent_messages f 1 2 `suffix_of` deque_of (user_messages f) 1 /\
  length (get_user_recent_messages f 1 2)
  = Nat.min (Z.to_nat 2) (length (deque_of (user_messages f) 1)).
Proof.
  intros f. assert (Hpos : 0 < 2) by lia.
  split; [exact Hpos |]. split; [vm_compute; reflexivity |].
  destruct (recent_messages_positive_limit f 1 2 Hpos) as (Hs & Hl & _).
  split; [exact Hs | exact Hl].
Defined.

Lemma duplicate_locks_user_out_witness :
  let evs1 := [Message 7 (PyStr (u "hello")) true false 0; Completed 7] in
  let x1 := play world_start evs1 in
  let evs2 := [Completed 7; ClearDuplicates 7; Message 8 (PyStr (u "hi")) true false 20] in
  let x2 := play (react x1 (Message 7 (PyStr (u "hello")) true false 10)).1 evs2 in
  (react x1 (Message 7 (PyStr (u "hello")) true false 10)).2 = Some DuplicateMessage /\
  react x2 (Message 7 (PyStr (u "something new")) true false 1000)
  = (x2, Some AlreadyProcessing).
Proof.
  intros evs1 x1 evs2 x2.
  assert (Hd : (react x1 (Message 7 (PyStr (u "hello")) true false 10)).2
               = Some DuplicateMessage) by (vm_compute; reflexivity).
  split; [exact Hd |].
  exact (duplicate_locks_user_out evs1 7 (PyStr (u "hello")) true false 10 evs2
           (PyStr (u "something new")) 1000 Hd eq_refl).
Defined.

(** ** Texts of white space *)

Lemma lower_cp_space (c : Z) : isspace c = true -> Tables.lower_cp c = c.
Proof.
  unfold Tables.lower_cp, isspace. intros Hs.
  destruct ((0x41 <=? c) && (c <=? 0x5A)) eqn:E1.
  { apply andb_true_iff in E1 as [?%Z.leb_le ?%Z.leb_le].
    exfalso. revert Hs.
    repeat match goal with
           | |- context [(?a <=? ?b)] => destruct (Z.leb_spec a b); try lia
           | |- context [(?a =? ?b)] => destruct (Z.eqb_spec a b); try lia
           end; cbn; discriminate. }
  destruct ((0x400 <=? c) && (c <=? 0x40F)) eqn:E2.
  { apply andb_true_iff in E2 as [?%Z.leb_le ?%Z.leb_le].
    exfalso. revert Hs.
    repeat match goal with
           | |- context [(?a <=? ?b)] => destruct (Z.leb_spec a b); try lia
           | |- context [(?a =? ?b)] => destruct (Z.eqb_spec a b); try lia
           end; cbn; discriminate. }
  destruct ((0x410 <=? c) && (c <=? 0x42F)) eqn:E3; [| done].
  apply andb_true_iff in E3 as [?%Z.leb_le ?%Z.leb_le].
  exfalso. revert Hs.
  repeat match goal with
         | |- context [(?a <=? ?b)] => destruct (Z.leb_spec a b); try lia
         | |- context [(?a =? ?b)] => destruct (Z.eqb_spec a b); try lia
         end; cbn; discriminate.
Qed.

Lemma lstrip_spaces (s : str) : Forall (fun c => isspace c = true) s -> lstrip s = [].
Proof.
  induction s as [| c r IH]; [done |].
  intros [Hc Hr]%Forall_cons. cbn. rewrite Hc. by apply IH.
Qed.

(** X18: with the tables for Basic Latin and Cyrillic, a text made of white
    space only, of any of the characters that [str.isspace] accepts, has the
    empty normal form; [is_duplicate] returns false on it and leaves the
    state that the clean-up produced: nothing is recorded for it and
    [blocked_count] is not touched. *)
Theorem white_space_text_admitted (f : filter) (user_id : Z) (t : Q) (text : str) :
  Forall (fun c => isspace c = true) text ->
  normalize_str text = [] /\
  is_duplicate f user_id t (PyStr text)
  = (_cleanup_old_messages (incr_processed f) user_id t, Return false).
Proof.
  intros Hs.
  assert (Hn : normalize_str text = []).
  { unfold normalize_str. destruct text as [| c r]; [done |].
    assert (Hl : lower (c :: r) = c :: r).
    { cbn [lower ucd_latin_cyrillic]. revert Hs. generalize (c :: r).
      intros l. induction l as [| c' l IH]; [done |].
      intros [Hc Hl]%Forall_cons. cbn. rewrite lower_cp_space by done.
      f_equal. by apply IH. }
    rewrite Hl. unfold strip. rewrite (lstrip_spaces (c :: r)) by done. done. }
  split; [done |].
  unfold is_duplicate, judge. rewrite normalize_text_str, Hn. done.
Qed.

Lemma white_space_text_admitted_witness :
  let f := run (init 300 10 (4 # 5)) [IsDuplicate 1 0 (PyStr (u "hello"))] in
  let text := [0x20; 0x09; 0x0A; 0xA0; 0x3000] in
  Forall (fun c => isspace c = true) text /\
  normalize_str text = [] /\
  is_duplicate f 1 1 (PyStr text)
  = (_cleanup_old_messages (incr_processed f) 1 1, Return false).
Proof.
  intros f text.
  assert (Hs : Forall (fun c => isspace c = true) text) by (repeat constructor).
  split; [exact Hs |].
  exact (white_space_text_admitted f 1 1 text Hs).
Defined.

(** ** A negative bound *)


